(** * Spectra: digit stream to raster image

    A shallow embedding of [main] of [spectra.c] (from the point where the
    command line has been parsed) and of the libgd and stdio calls it makes,
    followed by the properties of the validation, of the raster scan and of
    the error paths.

    Platform assumptions: [int] is 32 bits wide, [long] and [unsigned long]
    64 bits (LP64), the input is a regular file, so that [st_size] is its
    length, and two different file names are two different files. *)

From Stdlib Require Import ZArith Lia Strings.String Strings.Ascii Strings.Byte DecimalString.
From stdpp Require Import base tactics option list list_numbers.

Local Open Scope Z_scope.

(** ** C integer arithmetic *)

(** Wrap-around of a 32-bit signed [int]. *)
Definition int_wrap (z : Z) : Z := (z + 2 ^ 31) mod 2 ^ 32 - 2 ^ 31.

(** [a * b] on [int] operands. *)
Definition int_mul (a b : Z) : Z := int_wrap (a * b).

(** [v++] on an [unsigned long]. *)
Definition ulong_incr (v : Z) : Z := (v + 1) mod 2 ^ 64.

(** ** The part of libgd the program uses

    A palette image: [pixels] is the [sy] x [sx] array of palette indices
    ([pixels[y][x]], one [unsigned char] each, zeroed at creation), [palette]
    the colours allocated so far, in allocation order ([colorsTotal] is its
    length). *)

Record gdImage : Type := GdImage {
  sx : Z;
  sy : Z;
  pixels : list (list Z);
  palette : list (Z * Z * Z)
}.

Definition gdMaxColors : Z := 256.

(** [gdImageCreate(sx, sy)]: all pixels 0, no colour allocated.  The sizes
    [main] passes (1 .. 3000) are far from libgd's overflow checks; running
    out of memory is not modelled. *)
Definition gd_create (w h : Z) : gdImage :=
  {| sx := w; sy := h;
     pixels := replicate (Z.to_nat h) (replicate (Z.to_nat w) 0);
     palette := [] |}.

(** [gdImageColorAllocate(im, r, g, b)] on an image no colour of which was
    deallocated: the next free palette index, or -1 when the palette is
    full. *)
Definition gd_color_allocate (im : gdImage) (r g b : Z) : Z * gdImage :=
  let ct := Z.of_nat (length (palette im)) in
  if ct =? gdMaxColors then (-1, im)
  else (ct, {| sx := sx im; sy := sy im; pixels := pixels im;
               palette := palette im ++ [(r, g, b)] |}).

(** [gdImageBoundsSafe]: the clipping rectangle of a fresh image is the whole
    image, [0 .. sx-1] by [0 .. sy-1]. *)
Definition gd_bounds_safe (im : gdImage) (x y : Z) : bool :=
  negb ((y <? 0) || (y >? sy im - 1)) && negb ((x <? 0) || (x >? sx im - 1)).

(** [gdImageSetPixel(im, x, y, color)] for a palette index [color] (the
    brush, style and tile pseudo-colours are negative and never occur here):
    the pixel is stored when the position is inside the clipping rectangle,
    and the call does nothing otherwise. *)
Definition gd_set_pixel (im : gdImage) (x y color : Z) : gdImage :=
  if gd_bounds_safe im x y then
    {| sx := sx im; sy := sy im;
       pixels := alter (fun row => <[Z.to_nat x := color mod 256]> row)
                       (Z.to_nat y) (pixels im);
       palette := palette im |}
  else im.

(** [im->pixels[y][x]], where it exists. *)
Definition gd_pixel (im : gdImage) (x y : Z) : option Z :=
  if (0 <=? x) && (0 <=? y) then
    row ← pixels im !! Z.to_nat y; row !! Z.to_nat x
  else None.

(** ** Program state and calls to the outside *)

(** The calls the properties below speak about, in the order made. *)
Inductive event : Type :=
  | Printf (text : string)               (* one [printf], arguments rendered *)
  | FopenW (name : string)               (* [fopen(name, "wb")] succeeded *)
  | Fgetc (result : Z)                   (* one [fgetc(infile)] and its value *)
  | GdImageSetPixel (x y color : Z)      (* one [gdImageSetPixel(img, x, y, color)] *)
  | GdImagePng (im : gdImage).           (* [gdImagePng(img, outfile)] *)

Record state : Type := State {
  trace : list event;       (* calls made so far *)
  infile : list byte;       (* unread rest of the input file *)
  img : option gdImage;     (* [img]; [None] until [gdImageCreate] *)
  occurs : list Z           (* [unsigned long occurs[10]] *)
}.

(** A computation either goes on with a value, or has called [exit]. *)
Inductive outcome (A : Type) : Type :=
  | Ret (a : A) (s : state)
  | Exit (status : Z) (s : state).
Arguments Ret {A} a s.
Arguments Exit {A} status s.

Definition M (A : Type) : Type := state -> outcome A.

#[global] Instance M_ret : MRet M := fun A a s => Ret a s.
#[global] Instance M_bind : MBind M := fun A B f m s =>
  match m s with
  | Ret a s' => f a s'
  | Exit status s' => Exit status s'
  end.

Definition exit {A : Type} (status : Z) : M A := fun s => Exit status s.

Definition emit (e : event) : M unit := fun s =>
  Ret tt {| trace := trace s ++ [e]; infile := infile s;
            img := img s; occurs := occurs s |}.

Definition printf (text : string) : M unit := emit (Printf text).

(** The newline character, written [\n] in the C source. *)
Definition nl : string := String (ascii_of_nat 10) EmptyString.

(** [%i], [%lu] and [%lld] conversions. *)
Definition dec (z : Z) : string := NilZero.string_of_int (Z.to_int z).

(** [EOF]. *)
Definition EOF : Z := -1.

(** A byte read as [unsigned char] and converted to [int]. *)
Definition code (b : byte) : Z := Z.of_N (Byte.to_N b).

(** [fgetc(infile)]: the next byte as an [unsigned char] converted to [int],
    or [EOF] at the end of the file. *)
Definition fgetc : M Z := fun s =>
  match infile s with
  | [] => (emit (Fgetc EOF) ;; mret EOF) s
  | b :: rest =>
      let c := code b in
      (emit (Fgetc c) ;; mret c)
        {| trace := trace s; infile := rest; img := img s; occurs := occurs s |}
  end.

(** [fopen(infilename, "r+")] succeeded on a file holding [contents]. *)
Definition fopen_input (contents : list byte) : M unit := fun s =>
  Ret tt {| trace := trace s; infile := contents; img := img s; occurs := occurs s |}.

(** [fopen(outname, "wb")] succeeded: the file of that name is now empty.
    When it is the input file, open as [infile] under the name [inname] and
    not read from so far, the next [fgetc(infile)] finds the end of the
    file. *)
Definition fopen_output (inname outname : string) : M unit := fun s =>
  emit (FopenW outname)
    {| trace := trace s;
       infile := if String.eqb outname inname then [] else infile s;
       img := img s; occurs := occurs s |}.

(** [img = gdImageCreate(w, h)]. *)
Definition gdImageCreate (w h : Z) : M unit := fun s =>
  Ret tt {| trace := trace s; infile := infile s;
            img := Some (gd_create w h); occurs := occurs s |}.

(** [gdImageColorAllocate(img, r, g, b)]; [main] calls it after
    [gdImageCreate] only. *)
Definition gdImageColorAllocate (r g b : Z) : M Z := fun s =>
  match img s with
  | Some im =>
      let '(c, im') := gd_color_allocate im r g b in
      Ret c {| trace := trace s; infile := infile s;
               img := Some im'; occurs := occurs s |}
  | None => Ret (-1) s
  end.

(** [gdImageSetPixel(img, x, y, color)]. *)
Definition gdImageSetPixel (x y color : Z) : M unit := fun s =>
  emit (GdImageSetPixel x y color)
    {| trace := trace s; infile := infile s;
       img := (fun im => gd_set_pixel im x y color) <$> img s;
       occurs := occurs s |}.

(** [gdImagePng(img, outfile)]: the image as it is now goes to the encoder. *)
Definition gdImagePng : M unit := fun s =>
  match img s with
  | Some im => emit (GdImagePng im) s
  | None => Ret tt s
  end.

(** [occurs[d]++]. *)
Definition occurs_incr (d : nat) : M unit := fun s =>
  Ret tt {| trace := trace s; infile := infile s; img := img s;
            occurs := alter ulong_incr d (occurs s) |}.

(** [occurs[i]]. *)
Definition occurs_get (i : Z) : M Z := fun s =>
  Ret (default 0 (occurs s !! Z.to_nat i)) s.

(** [for (i = lo; i <= hi; i++) body(i)], for a body that leaves [i] and [hi]
    alone: [hi + 1 - lo] rounds when [lo <= hi], none otherwise
    (see [for_le_unfold] for the loop equation).  The counters of [main]
    stay below 3002, so [i++] never wraps around. *)
Fixpoint rounds (n : nat) (i : Z) (body : Z -> M unit) : M unit :=
  match n with
  | O => mret tt
  | S n' => body i ;; rounds n' (i + 1) body
  end.

Definition for_le (lo hi : Z) (body : Z -> M unit) : M unit :=
  rounds (Z.to_nat (hi + 1 - lo)) lo body.

(** ** The program *)

(** The ten palette indices held in [black], [white], ... of [main]. *)
Record colors : Type := Colors {
  black : Z; white : Z; red : Z; orange : Z; yellow : Z;
  green : Z; blue : Z; aqua : Z; pink : Z; purple : Z
}.

(** What [main] got from its command line: [-i] (absent: [None]), [-o]
    (default [output.png]), [-x] (default 640) and [-y] (default 480).  The
    option loop refuses sizes outside 1 .. 3000. *)
Record config : Type := Config {
  infilename : option string;
  outfilename : string;
  xsize : Z;
  ysize : Z
}.

(** What [main] finds outside: the bytes of the input file ([None]: it cannot
    be opened), whether [fstat] succeeds, whether the output file can be
    opened for writing. *)
Record env : Type := Env {
  input : option (list byte);
  fstat_ok : bool;
  output_ok : bool
}.

(** The messages of the three [exit(1)] branches of the [switch]. *)
Definition msg_line_breaks : list string :=
  [ "Error!" ++ nl;
    "Input file contains line breaks." ++ nl;
    "File must be a continuous stream of ASCII numbers, see README." ++ nl ]%string.

Definition msg_eof : list string :=
  [ "Error!" ++ nl;
    "Spectra reached end of file before generating image." ++ nl
      ++ "Please check input file, or see README." ++ nl ]%string.

Definition msg_unsupported : list string :=
  [ "Error!" ++ nl;
    "Unsupported character. Please check input file, or see README." ++ nl ]%string.

(** The messages of the size check. *)
Definition msg_too_small : list string :=
  [ nl;
    "Error!" ++ nl;
    "The input file is not large enough for the given resolution." ++ nl;
    "Either chose a lower resolution, or collect more sample data." ++ nl ]%string.

(** Several [printf] calls in a row. *)
Fixpoint printfs (texts : list string) : M unit :=
  match texts with
  | [] => mret tt
  | t :: rest => printf t ;; printfs rest
  end.

(** The [switch (inchar)] of the inner loop (lines 206-262). *)
Definition switch_inchar (c : colors) (x y inchar : Z) : M unit :=
  match inchar with
  | 48 => gdImageSetPixel x y (black c) ;; occurs_incr 0
  | 49 => gdImageSetPixel x y (white c) ;; occurs_incr 1
  | 50 => gdImageSetPixel x y (red c) ;; occurs_incr 2
  | 51 => gdImageSetPixel x y (orange c) ;; occurs_incr 3
  | 52 => gdImageSetPixel x y (yellow c) ;; occurs_incr 4
  | 53 => gdImageSetPixel x y (green c) ;; occurs_incr 5
  | 54 => gdImageSetPixel x y (blue c) ;; occurs_incr 6
  | 55 => gdImageSetPixel x y (aqua c) ;; occurs_incr 7
  | 56 => gdImageSetPixel x y (pink c) ;; occurs_incr 8
  | 57 => gdImageSetPixel x y (purple c) ;; occurs_incr 9
  | 10 => printfs msg_line_breaks ;; exit 1
  | -1 => printfs msg_eof ;; exit 1
  | _ => printfs msg_unsupported ;; exit 1
  end.

(** The body of the inner loop (lines 205-262). *)
Definition scan_step (c : colors) (x y : Z) : M unit :=
  inchar ← fgetc; switch_inchar c x y inchar.

(** The two nested loops (lines 192-264). *)
Definition scan (c : colors) (xsize ysize : Z) : M unit :=
  for_le 0 ysize (fun y =>
    for_le 0 xsize (fun x =>
      scan_step c x y)).

(** The size check (lines 156-163): at least [xsize * ysize] bytes. *)
Definition check_size (xsize ysize st_size : Z) : M unit :=
  if int_mul xsize ysize >? st_size then printfs msg_too_small ;; exit 1
  else mret tt.

(** The ten colour allocations (lines 180-189). *)
Definition allocate_colors : M colors :=
  black ← gdImageColorAllocate 0 0 0;
  white ← gdImageColorAllocate 255 255 255;
  red ← gdImageColorAllocate 255 0 0;
  orange ← gdImageColorAllocate 255 100 0;
  yellow ← gdImageColorAllocate 255 255 0;
  green ← gdImageColorAllocate 0 255 0;
  blue ← gdImageColorAllocate 0 0 255;
  aqua ← gdImageColorAllocate 0 255 255;
  pink ← gdImageColorAllocate 255 0 255;
  purple ← gdImageColorAllocate 128 0 128;
  mret (Colors black white red orange yellow green blue aqua pink purple).

(** The summary (lines 270-277). *)
Definition report (xsize ysize : Z) : M unit :=
  printf nl ;;
  printf ("Image Analysis" ++ nl) ;;
  printf ("---------------------------" ++ nl) ;;
  printf ("Occurrences out of " ++ dec (int_mul xsize ysize) ++ ":" ++ nl) ;;
  for_le 0 9 (fun i =>
    n ← occurs_get i;
    if n >? 0 then printf ("Character: " ++ dec i ++ " - " ++ dec n ++ nl)
    else mret tt) ;;
  printf nl.

(** After the loops (lines 265-290).  [fclose] and [gdImageDestroy] leave no
    mark on the state kept here. *)
Definition finish (xsize ysize : Z) : M unit :=
  printf ("Done" ++ nl) ;;
  gdImagePng ;;
  report xsize ysize ;;
  printf ("Closing files..." ++ nl) ;;
  printf ("Flushing memory..." ++ nl) ;;
  printf ("Done." ++ nl) ;;
  exit 0.

(** [main] from line 123 on. *)
Definition main (cfg : config) (e : env) : M unit :=
  match infilename cfg with
  | None =>
      printf ("You must provide Spectra with an input file to process with the -i option." ++ nl) ;;
      exit 1
  | Some name =>
      printf ("Spectra (v1.3) by MS3FGX" ++ nl) ;;
      printf ("---------------------------" ++ nl) ;;
      printf ("Opening input file: " ++ name ++ "...") ;;
      match input e with
      | None => printf nl ;; printf ("Error opening input file!" ++ nl) ;; exit 1
      | Some contents =>
          fopen_input contents ;;
          printf ("OK" ++ nl) ;;
          printf "Analyzing input file..." ;;
          (if fstat_ok e then mret tt
           else printf nl ;; printf ("Failed to calculate file size!" ++ nl) ;; exit 1) ;;
          let st_size := Z.of_nat (length contents) in
          printf ("OK (" ++ dec st_size ++ " bytes)" ++ nl) ;;
          check_size (xsize cfg) (ysize cfg) st_size ;;
          printf ("Creating output file: " ++ outfilename cfg ++ "...") ;;
          (if output_ok e then fopen_output name (outfilename cfg)
           else printf nl ;; printf ("Error opening output file!" ++ nl) ;; exit 1) ;;
          printf ("OK" ++ nl) ;;
          gdImageCreate (xsize cfg) (ysize cfg) ;;
          c ← allocate_colors;
          printf ("Generating " ++ dec (xsize cfg) ++ "x" ++ dec (ysize cfg) ++ " image...") ;;
          scan c (xsize cfg) (ysize cfg) ;;
          finish (xsize cfg) (ysize cfg)
      end
  end.

(** The state [main] starts from: nothing printed, no file open, no image,
    [occurs] all zero. *)
Definition initial : state :=
  {| trace := []; infile := []; img := None; occurs := replicate 10 0 |}.

Definition run (cfg : config) (e : env) : outcome unit := main cfg e initial.

(** The bytes of a file given as a string. *)
Definition bytes_of (s : string) : list byte := list_byte_of_string s.


(** ** Vocabulary of the properties *)

(** The bytes ['0'] .. ['9'], and the digit each stands for. *)
Definition is_digit (b : byte) : bool := (48 <=? code b) && (code b <=? 57).

Definition digit_of (b : byte) : nat := Z.to_nat (code b - 48).

(** The line feed. *)
Definition is_newline (b : byte) : bool := code b =? 10.

(** The colour variables in the order of the digits they are used for. *)
Definition color_map (c : colors) : list Z :=
  [black c; white c; red c; orange c; yellow c;
   green c; blue c; aqua c; pink c; purple c].

Definition color_of (c : colors) (b : byte) : Z :=
  default 0 (color_map c !! digit_of b).

(** The colours [main] works with: the indices 0 .. 9, in allocation order. *)
Definition main_colors : colors := Colors 0 1 2 3 4 5 6 7 8 9.

(** Row-major enumeration of the positions with [0 <= y <= ysize] (outer) and
    [0 <= x <= xsize] (inner). *)
Definition raster_positions (xsize ysize : Z) : list (Z * Z) :=
  y ← seqZ 0 (ysize + 1); (fun x => (x, y)) <$> seqZ 0 (xsize + 1).

(** [body] at each element of a list in turn, stopping at the first [exit]. *)
Fixpoint each {A : Type} (body : A -> M unit) (l : list A) : M unit :=
  match l with
  | [] => mret tt
  | a :: l' => body a ;; each body l'
  end.

(** The loop body at a position. *)
Definition scan_at (c : colors) (p : Z * Z) : M unit := scan_step c p.1 p.2.

(** The state after the digit [b] was read and plotted at [(x, y)]. *)
Definition plot (c : colors) (x y : Z) (b : byte) (s : state) : state :=
  {| trace := trace s ++ [Fgetc (code b); GdImageSetPixel x y (color_of c b)];
     infile := tail (infile s);
     img := (fun im => gd_set_pixel im x y (color_of c b)) <$> img s;
     occurs := alter ulong_incr (digit_of b) (occurs s) |}.

(** The state after the digits [ds] were read and plotted, one by one, at the
    positions [ps]. *)
Fixpoint plots (c : colors) (ps : list (Z * Z)) (ds : list byte) (s : state) : state :=
  match ps, ds with
  | (x, y) :: ps', b :: ds' => plots c ps' ds' (plot c x y b s)
  | _, _ => s
  end.

(** The image after the digits [ds] were plotted at the positions [ps]. *)
Fixpoint paint (c : colors) (ps : list (Z * Z)) (ds : list byte) (im : gdImage) : gdImage :=
  match ps, ds with
  | (x, y) :: ps', b :: ds' => paint c ps' ds' (gd_set_pixel im x y (color_of c b))
  | _, _ => im
  end.

(** The state in which the scan exits after [fgetc] returned [r]: the
    messages are printed, image and counts are as they were. *)
Definition abort (r : Z) (texts : list string) (s : state) : state :=
  {| trace := trace s ++ Fgetc r :: (Printf <$> texts);
     infile := tail (infile s);
     img := img s;
     occurs := occurs s |}.

(** The calls made for a digit [b] at position [p]. *)
Definition digit_events (c : colors) (pb : Z * Z * byte) : list event :=
  let '(x, y, b) := pb in [Fgetc (code b); GdImageSetPixel x y (color_of c b)].

(** Sum of the counts. *)
Definition total (counts : list Z) : Z := foldr Z.add 0 counts.

(** The four ways the program gives up on its input, each known by the
    messages it prints last, and always with exit status 1. *)
Inductive error : Type :=
  | InsufficientData
  | UnexpectedLineBreak
  | PrematureEOF
  | UnsupportedCharacter.

Definition message (err : error) : list string :=
  match err with
  | InsufficientData => msg_too_small
  | UnexpectedLineBreak => msg_line_breaks
  | PrematureEOF => msg_eof
  | UnsupportedCharacter => msg_unsupported
  end.

(** The last message of each kind. *)
Definition final (err : error) : string := default EmptyString (last (message err)).

Definition fails_with (o : outcome unit) (err : error) : Prop :=
  exists s pre, o = Exit 1 s /\ trace s = pre ++ (Printf <$> message err).

(** The palette after the ten allocations of [main]. *)
Definition main_palette : list (Z * Z * Z) :=
  [(0, 0, 0); (255, 255, 255); (255, 0, 0); (255, 100, 0); (255, 255, 0);
   (0, 255, 0); (0, 0, 255); (0, 255, 255); (255, 0, 255); (128, 0, 128)].

(** The image when the loops start: [w] by [h], every pixel 0, ten colours. *)
Definition blank (w h : Z) : gdImage :=
  {| sx := w; sy := h; pixels := pixels (gd_create w h); palette := main_palette |}.

(** What has been printed once the input file is open and measured. *)
Definition opening (name : string) (st_size : Z) : list event :=
  [ Printf ("Spectra (v1.3) by MS3FGX" ++ nl);
    Printf ("---------------------------" ++ nl);
    Printf ("Opening input file: " ++ name ++ "...");
    Printf ("OK" ++ nl);
    Printf "Analyzing input file...";
    Printf ("OK (" ++ dec st_size ++ " bytes)" ++ nl) ].

(** What the loops find in the input file [name], which held [contents]
    when it was opened: nothing, when the output file, opened for writing in
    between, is that very file. *)
Definition stream (cfg : config) (name : string) (contents : list byte) : list byte :=
  if String.eqb (outfilename cfg) name then [] else contents.

(** The state in which [main] enters the loops. *)
Definition ready (cfg : config) (name : string) (contents : list byte) : state :=
  {| trace := opening name (Z.of_nat (length contents)) ++
       [ Printf ("Creating output file: " ++ outfilename cfg ++ "...");
         FopenW (outfilename cfg);
         Printf ("OK" ++ nl);
         Printf ("Generating " ++ dec (xsize cfg) ++ "x" ++ dec (ysize cfg)
                   ++ " image...") ];
     infile := stream cfg name contents;
     img := Some (blank (xsize cfg) (ysize cfg));
     occurs := replicate 10 0 |}.

(** The images handed to the encoder in the course of a trace. *)
Definition encoded (tr : list event) : list gdImage :=
  omap (fun ev => match ev with GdImagePng im => Some im | _ => None end) tr.

(** A computation that only prints. *)
Definition prints (m : M unit) : Prop :=
  forall s, exists texts,
    m s = Ret tt {| trace := trace s ++ (Printf <$> texts); infile := infile s;
                    img := img s; occurs := occurs s |}.

(** The pixel array has the declared shape. *)
Definition well_formed (im : gdImage) : Prop :=
  length (pixels im) = Z.to_nat (sy im) /\
  Forall (fun row => length row = Z.to_nat (sx im)) (pixels im).

(** ** The command line *)

(** The tab character, written [\t] in the C source. *)
Definition tab : string := String (ascii_of_nat 9) EmptyString.

(** The texts of the seven [printf] calls of [help] (lines 30-46). *)
Definition help_text : list string :=
  [ "Spectra (v1.3) by MS3FGX" ++ nl;
    "----------------------------------------------------------------" ++ nl;
    "Spectra is designed to read the output from a TRNG or PRNG under" ++ nl
      ++ "examination and visualize it's output by plotting data as an image file." ++ nl
      ++ "As the human mind easily picks up on visual patterns that might otherwise" ++ nl
      ++ "be difficult to detect mathematically, Spectra enables the user to make" ++ nl
      ++ "a quick evaluation of the data's true randomness. For example, it is easy" ++ nl
      ++ "for a non-random file to appear random to a tool like ENT, but the same" ++ nl
      ++ "data could appear obviously flawed when viewed through Spectra." ++ nl;
    nl;
    "For more information, see www.digifail.com" ++ nl;
    nl;
    "Options:" ++ nl
      ++ tab ++ "-o <filename>      Sets output filename, default is output.png" ++ nl
      ++ tab ++ "-x <pixels>        Sets output image to be this many pixels wide" ++ nl
      ++ tab ++ "-y <pixels>        Sets output image to be this many pixels high" ++ nl
      ++ nl ]%string.

(** [help()]. *)
Definition help : M unit := printfs help_text.

(** The variables of [main] the option loop sets, as initialised at their
    declarations (lines 64-69). *)
Definition default_config : config :=
  {| infilename := None; outfilename := "output.png"; xsize := 640; ysize := 480 |}.

(** The [switch (opt)] of the option loop (lines 90-120), for one value
    [opt] returned by [getopt_long] together with [optarg].  The cases are
    the characters ['i'] (105), ['o'] (111), ['x'] (120), ['y'] (121) and
    ['h'] (104); [atoi] is the C library's. *)
Definition option_switch (atoi : string -> Z) (opt : Z) (optarg : string)
    (cfg : config) : M config :=
  match opt with
  | 105 =>
      mret {| infilename := Some optarg; outfilename := outfilename cfg;
              xsize := xsize cfg; ysize := ysize cfg |}
  | 111 =>
      mret {| infilename := infilename cfg; outfilename := optarg;
              xsize := xsize cfg; ysize := ysize cfg |}
  | 120 =>
      let xsize := atoi optarg in
      (if (xsize >? 3000) || (xsize <=? 0)
       then printf ("Invalid X dimension." ++ nl) ;; exit 1 else mret tt) ;;
      mret {| infilename := infilename cfg; outfilename := outfilename cfg;
              xsize := xsize; ysize := ysize cfg |}
  | 121 =>
      let ysize := atoi optarg in
      (if (ysize >? 3000) || (ysize <=? 0)
       then printf ("Invalid Y dimension." ++ nl) ;; exit 1 else mret tt) ;;
      mret {| infilename := infilename cfg; outfilename := outfilename cfg;
              xsize := xsize cfg; ysize := ysize |}
  | 104 => help ;; exit 0
  | _ => printf ("Unknown option. Use -h for help, or see README." ++ nl) ;; exit 0
  end.

(** The option loop (lines 88-121), run on the successive results of
    [getopt_long]: each is the option character (or ['?']) with its
    [optarg]; the end of the list, like the value [EOF], ends the loop. *)
Fixpoint options_loop (atoi : string -> Z) (results : list (Z * string))
    (cfg : config) : M config :=
  match results with
  | [] => mret cfg
  | (opt, optarg) :: rest =>
      if opt =? EOF then mret cfg
      else cfg' ← option_switch atoi opt optarg cfg; options_loop atoi rest cfg'
  end.

(** The whole of [main]: the option loop, then the rest. *)
Definition spectra (atoi : string -> Z) (results : list (Z * string)) (e : env)
    : outcome unit :=
  (cfg ← options_loop atoi results default_config; main cfg e) initial.

(** White space as [isspace] has it in the C locale. *)
Definition is_space (a : ascii) : bool :=
  let n := nat_of_ascii a in (n =? 32)%nat || ((9 <=? n)%nat && (n <=? 13)%nat).

Definition is_decimal (a : ascii) : bool :=
  let n := nat_of_ascii a in (48 <=? n)%nat && (n <=? 57)%nat.

Fixpoint skip_spaces (s : string) : string :=
  match s with
  | String a rest => if is_space a then skip_spaces rest else s
  | EmptyString => s
  end.

Fixpoint decimal_value (acc : Z) (s : string) : Z :=
  match s with
  | String a rest =>
      if is_decimal a then decimal_value (10 * acc + (Z.of_nat (nat_of_ascii a) - 48)) rest
      else acc
  | EmptyString => acc
  end.

(** What [strtol] returns for the exact value [z]: [z] itself when it fits
    in a [long], [LONG_MIN] or [LONG_MAX] otherwise. *)
Definition long_clamp (z : Z) : Z := Z.max (- 2 ^ 63) (Z.min (2 ^ 63 - 1) z).

(** The C library's [atoi] as glibc has it, [(int) strtol(s, NULL, 10)]:
    white space is skipped, then an optional sign and the longest run of
    decimal digits are read (none: 0); the value saturates at the bounds of
    [long], and the conversion to [int] keeps its low 32 bits. *)
Definition decimal_atoi (s : string) : Z :=
  match skip_spaces s with
  | String "-" rest => int_wrap (long_clamp (- decimal_value 0 rest))
  | String "+" rest => int_wrap (long_clamp (decimal_value 0 rest))
  | rest => int_wrap (long_clamp (decimal_value 0 rest))
  end.

(** ** More vocabulary *)

(** The sizes the option loop lets through. *)
Definition valid_sizes (cfg : config) : Prop :=
  1 <= xsize cfg <= 3000 /\ 1 <= ysize cfg <= 3000.

(** The argument of the last result with option character [opt]. *)
Definition last_arg (opt : Z) (results : list (Z * string)) : option string :=
  last (omap (fun r => if r.1 =? opt then Some r.2 else None) results).

(** The results the option loop goes past: [-i], [-o], and [-x] or [-y]
    with a size from 1 to 3000. *)
Definition accepted (atoi : string -> Z) (r : Z * string) : bool :=
  (r.1 =? 105) || (r.1 =? 111)
  || (((r.1 =? 120) || (r.1 =? 121)) && (1 <=? atoi r.2) && (atoi r.2 <=? 3000)).

(** The variables of [main] after a loop over accepted results: for each
    option the argument given last, or the default. *)
Definition config_of (atoi : string -> Z) (results : list (Z * string)) : config :=
  {| infilename := last_arg 105 results;
     outfilename := default "output.png"%string (last_arg 111 results);
     xsize := from_option atoi 640 (last_arg 120 results);
     ysize := from_option atoi 480 (last_arg 121 results) |}.

(** Exit status and messages for a result that is not accepted. *)
Definition rejection (opt : Z) : Z * list string :=
  if opt =? 120 then (1, [("Invalid X dimension." ++ nl)%string])
  else if opt =? 121 then (1, [("Invalid Y dimension." ++ nl)%string])
  else if opt =? 104 then (0, help_text)
  else (0, [("Unknown option. Use -h for help, or see README." ++ nl)%string]).

(** The output files opened for writing in the course of a trace. *)
Definition opened (tr : list event) : list string :=
  omap (fun ev => match ev with FopenW name => Some name | _ => None end) tr.

(** The values [fgetc] returned in the course of a trace. *)
Definition reads (tr : list event) : list Z :=
  omap (fun ev => match ev with Fgetc r => Some r | _ => None end) tr.

(** Whether [main] gets as far as opening the output file. *)
Definition checks_pass (cfg : config) (e : env) : bool :=
  match infilename cfg, input e with
  | Some _, Some contents =>
      fstat_ok e && (int_mul (xsize cfg) (ysize cfg) <=? Z.of_nat (length contents))
      && output_ok e
  | _, _ => false
  end.

(** How many of the bytes are the digit [d]. *)
Definition count_digit (d : nat) (l : list byte) : Z :=
  Z.of_nat (length (filter (fun b => digit_of b = d) l)).

(** The lines of the summary for the counts of the digits [d], [d + 1], ...:
    one for each count above zero. *)
Fixpoint report_lines (d : Z) (counts : list Z) : list string :=
  match counts with
  | [] => []
  | n :: rest =>
      (if n >? 0 then [("Character: " ++ dec d ++ " - " ++ dec n ++ nl)%string] else [])
      ++ report_lines (d + 1) rest
  end.

(** What is printed after the encoder call for the counts [counts]. *)
Definition summary (xsize ysize : Z) (counts : list Z) : list string :=
  [ nl; "Image Analysis" ++ nl; "---------------------------" ++ nl;
    "Occurrences out of " ++ dec (int_mul xsize ysize) ++ ":" ++ nl ]%string
  ++ report_lines 0 (take 10 counts)
  ++ [ nl; "Closing files..." ++ nl; "Flushing memory..." ++ nl; "Done." ++ nl ]%string.

(** The counts of the ten digits among the bytes [l]. *)
Definition histogram (l : list byte) : list Z :=
  (fun d => count_digit d l) <$> seq 0 10.

(** ** Images *)

Lemma gd_bounds_safe_spec (im : gdImage) (x y : Z) :
  gd_bounds_safe im x y = true <-> 0 <= x < sx im /\ 0 <= y < sy im.
Proof.
  unfold gd_bounds_safe.
  destruct (Z.ltb_spec y 0), (Z.gtb_spec y (sy im - 1)),
    (Z.ltb_spec x 0), (Z.gtb_spec x (sx im - 1)); simpl; split; intros; try done; lia.
Qed.

(** A write outside the image is dropped. *)
Lemma gd_set_pixel_outside (im : gdImage) (x y color : Z) :
  gd_bounds_safe im x y = false -> gd_set_pixel im x y color = im.
Proof. unfold gd_set_pixel. by intros ->. Qed.

Lemma gd_set_pixel_frame (im : gdImage) (x y color : Z) :
  sx (gd_set_pixel im x y color) = sx im /\
  sy (gd_set_pixel im x y color) = sy im /\
  palette (gd_set_pixel im x y color) = palette im.
Proof. unfold gd_set_pixel. by destruct (gd_bounds_safe im x y). Qed.

Lemma well_formed_create (w h : Z) : well_formed (gd_create w h).
Proof.
  split; simpl; [by rewrite length_replicate|].
  apply Forall_replicate. by rewrite length_replicate.
Qed.

Lemma well_formed_set_pixel (im : gdImage) (x y color : Z) :
  well_formed im -> well_formed (gd_set_pixel im x y color).
Proof.
  intros [Hl Hr]. unfold gd_set_pixel.
  destruct (gd_bounds_safe im x y); [|done].
  split; simpl; [by rewrite length_alter|].
  apply Forall_alter; [done|]. intros row _ Hrow. by rewrite length_insert.
Qed.

(** A write inside the image is read back, as an [unsigned char]. *)
Lemma gd_pixel_set_eq (im : gdImage) (x y color : Z) :
  well_formed im -> gd_bounds_safe im x y = true ->
  gd_pixel (gd_set_pixel im x y color) x y = Some (color mod 256).
Proof.
  intros [Hl Hr] Hb. unfold gd_set_pixel. rewrite Hb.
  apply gd_bounds_safe_spec in Hb as [Hx Hy].
  unfold gd_pixel. simpl.
  destruct (Z.leb_spec 0 x), (Z.leb_spec 0 y); try lia. simpl.
  rewrite list_lookup_alter_eq.
  destruct (lookup_lt_is_Some_2 (pixels im) (Z.to_nat y)) as [row Hrow]; [lia|].
  rewrite Hrow. simpl. apply list_lookup_insert_eq.
  rewrite (Forall_lookup_1 _ _ _ _ Hr Hrow). lia.
Qed.

(** A write leaves every other pixel alone. *)
Lemma gd_pixel_set_ne (im : gdImage) (x y color x' y' : Z) :
  (x', y') <> (x, y) ->
  gd_pixel (gd_set_pixel im x y color) x' y' = gd_pixel im x' y'.
Proof.
  intros Hne. unfold gd_set_pixel.
  destruct (gd_bounds_safe im x y) eqn:Hb; [|done].
  apply gd_bounds_safe_spec in Hb as [Hx Hy].
  unfold gd_pixel. simpl.
  destruct (Z.leb_spec 0 x'), (Z.leb_spec 0 y'); simpl; try done.
  destruct (decide (y' = y)) as [->|Hy'].
  - rewrite list_lookup_alter_eq. destruct (pixels im !! Z.to_nat y); simpl; [|done].
    apply list_lookup_insert_ne. intros E. apply Hne. f_equal. lia.
  - rewrite list_lookup_alter_ne by lia. done.
Qed.


(** Two images of the same shape and palette with the same pixels are the
    same image. *)
Lemma gd_image_ext (im1 im2 : gdImage) :
  well_formed im1 -> well_formed im2 ->
  sx im1 = sx im2 -> sy im1 = sy im2 -> palette im1 = palette im2 ->
  (forall x y, 0 <= x < sx im1 -> 0 <= y < sy im1 ->
     gd_pixel im1 x y = gd_pixel im2 x y) ->
  im1 = im2.
Proof.
  destruct im1 as [w1 h1 px1 pal1], im2 as [w2 h2 px2 pal2].
  unfold well_formed, gd_pixel. simpl. intros [L1 R1] [L2 R2] -> -> -> Hpx.
  f_equal. apply list_eq. intros i.
  destruct (decide (i < Z.to_nat h2)%nat) as [Hi|Hi].
  - destruct (lookup_lt_is_Some_2 px1 i) as [r1 Hr1]; [lia|].
    destruct (lookup_lt_is_Some_2 px2 i) as [r2 Hr2]; [lia|].
    rewrite Hr1, Hr2. f_equal. apply list_eq. intros j.
    pose proof (Forall_lookup_1 _ _ _ _ R1 Hr1) as Hl1.
    pose proof (Forall_lookup_1 _ _ _ _ R2 Hr2) as Hl2. simpl in *.
    destruct (decide (j < Z.to_nat w2)%nat) as [Hj|Hj].
    + specialize (Hpx (Z.of_nat j) (Z.of_nat i)).
      destruct (Z.leb_spec 0 (Z.of_nat j)), (Z.leb_spec 0 (Z.of_nat i)); try lia.
      simpl in Hpx. rewrite !Nat2Z.id, Hr1, Hr2 in Hpx. simpl in Hpx.
      apply Hpx; lia.
    + rewrite !lookup_ge_None_2 by lia. done.
  - rewrite !lookup_ge_None_2 by lia. done.
Qed.

Section Paint.
Variable c : colors.

Lemma paint_frame (ps : list (Z * Z)) (ds : list byte) (im : gdImage) :
  well_formed im ->
  well_formed (paint c ps ds im) /\ sx (paint c ps ds im) = sx im /\
  sy (paint c ps ds im) = sy im /\ palette (paint c ps ds im) = palette im.
Proof.
  revert ds im. induction ps as [|[x y] ps IH]; intros [|b ds] im Hwf; simpl; try done.
  destruct (gd_set_pixel_frame im x y (color_of c b)) as (Ex & Ey & Ep).
  destruct (IH ds (gd_set_pixel im x y (color_of c b))) as (W & Ex' & Ey' & Ep');
    [by apply well_formed_set_pixel|].
  split; [done|]. by rewrite Ex', Ey', Ep'.
Qed.

Lemma paint_other (ps : list (Z * Z)) (ds : list byte) (im : gdImage) (x y : Z) :
  (x, y) ∉ ps -> gd_pixel (paint c ps ds im) x y = gd_pixel im x y.
Proof.
  revert ds im. induction ps as [|[x' y'] ps IH]; intros [|b ds] im Hn; simpl; try done.
  apply not_elem_of_cons in Hn as [Hne Hn].
  rewrite IH by done. by apply gd_pixel_set_ne.
Qed.

(** The pixel at an inside position visited once holds the colour of the
    digit read there. *)
Lemma paint_lookup (ps : list (Z * Z)) (ds : list byte) (im : gdImage)
    (k : nat) (x y : Z) (b : byte) :
  NoDup ps -> ps !! k = Some (x, y) -> ds !! k = Some b ->
  well_formed im -> gd_bounds_safe im x y = true ->
  gd_pixel (paint c ps ds im) x y = Some (color_of c b mod 256).
Proof.
  revert ds im k. induction ps as [|[x' y'] ps IH]; intros [|b' ds] im k Hnd Hp Hd Hwf Hb;
    try done.
  apply NoDup_cons in Hnd as [Hn Hnd]. destruct k as [|k]; simpl in *.
  - injection Hp as -> ->. injection Hd as ->.
    rewrite paint_other by done. by apply gd_pixel_set_eq.
  - eapply IH; eauto using well_formed_set_pixel.
    apply gd_bounds_safe_spec. apply gd_bounds_safe_spec in Hb.
    destruct (gd_set_pixel_frame im x' y' (color_of c b')) as (-> & -> & _). done.
Qed.

Lemma img_plots (ps : list (Z * Z)) (ds : list byte) (s : state) :
  img (plots c ps ds s) = paint c ps ds <$> img s.
Proof.
  revert ds s. induction ps as [|[x y] ps IH]; intros [|b ds] s; simpl;
    try by destruct (img s).
  rewrite IH. simpl. by destruct (img s).
Qed.

End Paint.

Lemma NoDup_raster_positions (xsize ysize : Z) : NoDup (raster_positions xsize ysize).
Proof.
  unfold raster_positions. apply NoDup_bind.
  - intros y1 y2 p _ _ H1 H2.
    apply list_elem_of_fmap in H1 as (x1 & -> & _).
    apply list_elem_of_fmap in H2 as (x2 & E & _). by injection E.
  - intros y _. apply NoDup_fmap_2; [|apply NoDup_seqZ].
    intros x1 x2 E. by injection E.
  - apply NoDup_seqZ.
Qed.

(** ** The monad and the loops *)

Lemma bind_ret {A B : Type} (m : M A) (f : A -> M B) (s s' : state) (a : A) :
  m s = Ret a s' -> (m ≫= f) s = f a s'.
Proof. intros H. unfold mbind, M_bind. by rewrite H. Qed.

Lemma bind_exit {A B : Type} (m : M A) (f : A -> M B) (s s' : state) (st : Z) :
  m s = Exit st s' -> (m ≫= f) s = Exit st s'.
Proof. intros H. unfold mbind, M_bind. by rewrite H. Qed.

Lemma bind_ext {A B : Type} (m : M A) (f g : A -> M B) (s : state) :
  (forall a s', f a s' = g a s') -> (m ≫= f) s = (m ≫= g) s.
Proof. intros E. unfold mbind, M_bind. destruct (m s); [apply E|done]. Qed.

Lemma rounds_each (n : nat) (i : Z) (body : Z -> M unit) (s : state) :
  rounds n i body s = each body (seqZ i (Z.of_nat n)) s.
Proof.
  revert i s. induction n as [|n IH]; intros i s.
  - reflexivity.
  - rewrite seqZ_cons by lia.
    replace (Z.pred (Z.of_nat (S n))) with (Z.of_nat n) by lia.
    simpl. unfold mbind, M_bind. destruct (body i s) as [[] s1|st s1]; [|done].
    rewrite IH. by replace (i + 1) with (Z.succ i) by lia.
Qed.

Lemma for_le_each (lo hi : Z) (body : Z -> M unit) (s : state) :
  for_le lo hi body s = each body (seqZ lo (hi + 1 - lo)) s.
Proof.
  unfold for_le. rewrite rounds_each.
  destruct (Z.le_gt_cases (hi + 1 - lo) 0).
  - rewrite Z2Nat.nonpos by done. simpl. by rewrite !seqZ_nil by lia.
  - by rewrite Z2Nat.id by lia.
Qed.

(** The loop equation of [for (i = lo; i <= hi; i++)]. *)
Lemma for_le_unfold (lo hi : Z) (body : Z -> M unit) (s : state) :
  for_le lo hi body s =
  if lo <=? hi then (body lo ;; for_le (lo + 1) hi body) s else Ret tt s.
Proof.
  unfold for_le. destruct (Z.leb_spec lo hi).
  - replace (Z.to_nat (hi + 1 - lo)) with (S (Z.to_nat (hi + 1 - (lo + 1)))) by lia.
    reflexivity.
  - by replace (Z.to_nat (hi + 1 - lo)) with O by lia.
Qed.

Lemma each_ext {A : Type} (f g : A -> M unit) (l : list A) (s : state) :
  (forall a s, f a s = g a s) -> each f l s = each g l s.
Proof.
  intros E. revert s. induction l as [|a l IH]; intros s; [done|].
  simpl. unfold mbind, M_bind. rewrite E. destruct (g a s); [apply IH|done].
Qed.

Lemma each_app {A : Type} (f : A -> M unit) (l1 l2 : list A) (s : state) :
  each f (l1 ++ l2) s = (each f l1 ;; each f l2) s.
Proof.
  revert s. induction l1 as [|a l1 IH]; intros s; [done|].
  simpl. unfold mbind, M_bind in *. destruct (f a s); [apply IH|done].
Qed.

Lemma each_bind {A B : Type} (f : B -> M unit) (g : A -> list B) (l : list A) (s : state) :
  each (fun a => each f (g a)) l s = each f (l ≫= g) s.
Proof.
  revert s. induction l as [|a l IH]; intros s; [done|].
  cbn [each]. rewrite bind_cons, each_app.
  apply bind_ext. intros _ s'. apply IH.
Qed.

Lemma each_fmap {A B : Type} (f : B -> M unit) (g : A -> B) (l : list A) (s : state) :
  each f (g <$> l) s = each (fun a => f (g a)) l s.
Proof.
  revert s. induction l as [|a l IH]; intros s; [done|].
  simpl. apply bind_ext. intros _ s'. apply IH.
Qed.

(** The nested loops run the body over the row-major enumeration. *)
Lemma scan_each (c : colors) (xsize ysize : Z) (s : state) :
  scan c xsize ysize s = each (scan_at c) (raster_positions xsize ysize) s.
Proof.
  unfold scan, raster_positions. rewrite for_le_each.
  rewrite Z.sub_0_r. rewrite <- each_bind. apply each_ext. intros y s'.
  by rewrite for_le_each, Z.sub_0_r, each_fmap.
Qed.

(** ** The enumeration of the positions *)

Lemma length_rows {A : Type} (row : Z -> list A) (m : nat) (l : list Z) :
  (forall y, length (row y) = m) -> length (l ≫= row) = (length l * m)%nat.
Proof.
  intros Hrow. induction l as [|y l IH]; [done|].
  rewrite bind_cons, length_app, IH, Hrow. simpl. lia.
Qed.

Lemma length_raster_positions (xsize ysize : Z) :
  0 <= xsize -> 0 <= ysize ->
  Z.of_nat (length (raster_positions xsize ysize)) = (xsize + 1) * (ysize + 1).
Proof.
  intros Hx Hy. unfold raster_positions.
  rewrite (length_rows _ (Z.to_nat (xsize + 1))).
  - rewrite length_seqZ. lia.
  - intros y. by rewrite length_fmap, length_seqZ.
Qed.

Lemma lookup_rows (xsize x y a : Z) (m : nat) :
  0 <= x <= xsize -> a <= y < a + Z.of_nat m ->
  (seqZ a (Z.of_nat m) ≫= fun y => (fun x => (x, y)) <$> seqZ 0 (xsize + 1))
    !! Z.to_nat ((y - a) * (xsize + 1) + x) = Some (x, y).
Proof.
  intros Hx. revert a. induction m as [|m IH]; intros a Hy; [lia|].
  rewrite (seqZ_cons a) by lia. rewrite bind_cons.
  replace (Z.pred (Z.of_nat (S m))) with (Z.of_nat m) by lia.
  destruct (decide (y = a)) as [->|Hne].
  - rewrite lookup_app_l by (rewrite length_fmap, length_seqZ; lia).
    rewrite list_lookup_fmap, lookup_seqZ_lt by lia.
    simpl. do 2 f_equal. lia.
  - rewrite lookup_app_r by (rewrite length_fmap, length_seqZ; nia).
    rewrite length_fmap, length_seqZ.
    replace (Z.to_nat ((y - a) * (xsize + 1) + x) - Z.to_nat (xsize + 1))%nat
      with (Z.to_nat ((y - Z.succ a) * (xsize + 1) + x)) by nia.
    apply IH. lia.
Qed.

(** Position [(x, y)] is visited as number [y * (xsize + 1) + x]. *)
Lemma lookup_raster_positions (xsize ysize x y : Z) :
  0 <= x <= xsize -> 0 <= y <= ysize ->
  raster_positions xsize ysize !! Z.to_nat (y * (xsize + 1) + x) = Some (x, y).
Proof.
  intros Hx Hy. unfold raster_positions.
  replace (ysize + 1) with (Z.of_nat (Z.to_nat (ysize + 1))) by lia.
  replace (y * (xsize + 1) + x) with ((y - 0) * (xsize + 1) + x) by lia.
  apply lookup_rows; lia.
Qed.

(** ** One position *)

Lemma switch_byte (c : colors) (x y : Z) (b : byte) :
  switch_inchar c x y (code b) =
  if is_digit b then gdImageSetPixel x y (color_of c b) ;; occurs_incr (digit_of b)
  else if is_newline b then printfs msg_line_breaks ;; exit 1
  else printfs msg_unsupported ;; exit 1.
Proof. destruct b; reflexivity. Qed.

Lemma printfs_spec (texts : list string) (s : state) :
  printfs texts s =
  Ret tt {| trace := trace s ++ (Printf <$> texts); infile := infile s;
            img := img s; occurs := occurs s |}.
Proof.
  revert s. induction texts as [|t texts IH]; intros [tr i im o]; simpl.
  - by rewrite app_nil_r.
  - unfold mbind, M_bind, printf, emit. simpl. rewrite IH. simpl.
    by rewrite <- app_assoc.
Qed.

#[local] Opaque printfs msg_eof msg_line_breaks msg_unsupported.

(** What the loop body does, by the kind of the next element. *)
Lemma scan_step_spec (c : colors) (x y : Z) (s : state) :
  scan_step c x y s =
  match infile s with
  | [] => Exit 1 (abort EOF msg_eof s)
  | b :: _ =>
      if is_digit b then Ret tt (plot c x y b s)
      else if is_newline b then Exit 1 (abort (code b) msg_line_breaks s)
      else Exit 1 (abort (code b) msg_unsupported s)
  end.
Proof.
  destruct s as [t i im o]. unfold scan_step, fgetc, abort, plot. simpl.
  destruct i as [|b rest]; unfold mbind, M_bind, emit, mret, M_ret; simpl.
  - change (switch_inchar c x y EOF) with (printfs msg_eof ;; exit (A:=unit) 1).
    unfold mbind, M_bind. rewrite printfs_spec. simpl. by rewrite <- app_assoc.
  - rewrite switch_byte. destruct (is_digit b); [|destruct (is_newline b)];
      unfold mbind, M_bind; rewrite ?printfs_spec; unfold gdImageSetPixel, emit;
      simpl; by rewrite <- app_assoc.
Qed.

#[local] Transparent printfs msg_eof msg_line_breaks msg_unsupported.

(** ** A run of positions *)

Section Positions.
Variable c : colors.

Lemma step_digit (p : Z * Z) (b : byte) (rest : list byte) (s : state) :
  infile s = b :: rest -> is_digit b = true ->
  scan_at c p s = Ret tt (plot c p.1 p.2 b s).
Proof. intros Hi Hb. unfold scan_at. rewrite scan_step_spec, Hi. by rewrite Hb. Qed.

Lemma infile_plot (x y : Z) (b : byte) (rest : list byte) (s : state) :
  infile s = b :: rest -> infile (plot c x y b s) = rest.
Proof. intros Hi. simpl. by rewrite Hi. Qed.

(** Digits all the way: every position is plotted. *)
Lemma each_digits (ps : list (Z * Z)) (ds rest : list byte) (s : state) :
  infile s = ds ++ rest -> Forall (fun b => is_digit b = true) ds ->
  length ds = length ps ->
  each (scan_at c) ps s = Ret tt (plots c ps ds s) /\ infile (plots c ps ds s) = rest.
Proof.
  revert ds s. induction ps as [|[x y] ps IH]; intros [|b ds] s Hi Hd Hl;
    simplify_eq/=; [done|].
  apply Forall_cons in Hd as [Hb Hd].
  erewrite bind_ret by (eapply (step_digit (x, y)); eauto).
  apply IH; [|done|done]. by erewrite infile_plot.
Qed.

Lemma trace_plots (ps : list (Z * Z)) (ds : list byte) (s : state) :
  trace (plots c ps ds s) = trace s ++ (zip ps ds ≫= digit_events c).
Proof.
  revert ds s. induction ps as [|[x y] ps IH]; intros [|b ds] s; simpl;
    rewrite ?app_nil_r; try done.
  rewrite IH. simpl. by rewrite <- app_assoc.
Qed.

(** A completed run read one digit per position. *)
Lemma each_ret_inv (ps : list (Z * Z)) (s s' : state) :
  each (scan_at c) ps s = Ret tt s' ->
  exists ds, infile s = ds ++ infile s' /\ Forall (fun b => is_digit b = true) ds /\
             length ds = length ps /\ s' = plots c ps ds s.
Proof.
  revert s. induction ps as [|[x y] ps IH]; intros s H; simpl in H.
  - injection H as <-. by exists [].
  - unfold mbind, M_bind, scan_at in H. rewrite scan_step_spec in H. simpl in H.
    destruct (infile s) as [|b rest] eqn:Hi; [done|].
    destruct (is_digit b) eqn:Hb; [|by destruct (is_newline b)].
    apply IH in H as (ds & Hi' & Hd & Hl & ->).
    exists (b :: ds). simpl. rewrite <- Hi'. erewrite infile_plot by done.
    repeat split; auto.
Qed.

(** A run that exits does so with status 1, at the first element that is
    not a digit, with the messages of that element's kind. *)
Lemma each_exit_inv (ps : list (Z * Z)) (s s' : state) (st : Z) :
  each (scan_at c) ps s = Exit st s' ->
  st = 1 /\
  exists ds rest s1 r err,
    infile s = ds ++ rest /\ Forall (fun b => is_digit b = true) ds /\
    (length ds < length ps)%nat /\ s1 = plots c ps ds s /\ infile s1 = rest /\
    s' = abort r (message err) s1 /\
    match rest with
    | [] => r = EOF /\ err = PrematureEOF
    | b :: _ => r = code b /\ is_digit b = false /\
                err = (if is_newline b then UnexpectedLineBreak else UnsupportedCharacter)
    end.
Proof.
  revert s. induction ps as [|[x y] ps IH]; intros s H; simpl in H; [done|].
  unfold mbind, M_bind, scan_at in H. rewrite scan_step_spec in H. simpl in H.
  destruct (infile s) as [|b rest] eqn:Hi.
  { injection H as <- <-. split; [done|].
    exists [], [], s, EOF, PrematureEOF. simpl. repeat split; auto; lia. }
  destruct (is_digit b) eqn:Hb.
  - apply IH in H as (-> & ds & rest' & s1 & r & err & Hi' & Hd & Hl & -> & Hr & -> & Hk).
    split; [done|]. erewrite infile_plot in Hi' by done. subst rest.
    exists (b :: ds), rest', (plots c ((x, y) :: ps) (b :: ds) s), r, err.
    simpl. repeat split; auto. lia.
  - split; [by destruct (is_newline b); injection H|].
    exists [], (b :: rest), s, (code b),
      (if is_newline b then UnexpectedLineBreak else UnsupportedCharacter).
    simpl. repeat split; auto; try lia.
    destruct (is_newline b); by injection H.
Qed.

(** Digits, then something else before the positions run out: the run exits
    there, by the kind of that element. *)
Lemma each_abort (ps : list (Z * Z)) (ds rest : list byte) (s : state) :
  infile s = ds ++ rest -> Forall (fun b => is_digit b = true) ds ->
  (length ds < length ps)%nat ->
  match rest with [] => True | b :: _ => is_digit b = false end ->
  each (scan_at c) (take (length ds) ps) s = Ret tt (plots c ps ds s) /\
  infile (plots c ps ds s) = rest /\
  each (scan_at c) ps s =
    match rest with
    | [] => Exit 1 (abort EOF msg_eof (plots c ps ds s))
    | b :: _ =>
        if is_newline b then Exit 1 (abort (code b) msg_line_breaks (plots c ps ds s))
        else Exit 1 (abort (code b) msg_unsupported (plots c ps ds s))
    end.
Proof.
  revert ds s. induction ps as [|[x y] ps IH]; intros [|b ds] s Hi Hd Hl Hr;
    simpl in *; try lia.
  - split; [done|]. split; [done|].
    unfold mbind, M_bind, scan_at. rewrite scan_step_spec, Hi. simpl.
    destruct rest as [|b rest]; [done|]. rewrite Hr. by destruct (is_newline b).
  - apply Forall_cons in Hd as [Hb Hd].
    erewrite !bind_ret by (eapply (step_digit (x, y)); eauto).
    apply IH; [|done|lia|done]. by erewrite infile_plot.
Qed.

Lemma digit_of_lt (b : byte) : is_digit b = true -> (digit_of b < 10)%nat.
Proof. unfold is_digit, digit_of. intros H. apply andb_true_iff in H. lia. Qed.

Lemma total_nonneg (counts : list Z) :
  Forall (fun v => 0 <= v) counts -> 0 <= total counts.
Proof. induction 1; simpl; lia. Qed.

(** [occurs[d]++] adds one to the sum as long as no count wraps around. *)
Lemma total_incr (counts : list Z) (d : nat) :
  (d < length counts)%nat -> Forall (fun v => 0 <= v) counts ->
  total counts < 2 ^ 64 - 1 ->
  total (alter ulong_incr d counts) = total counts + 1 /\
  Forall (fun v => 0 <= v) (alter ulong_incr d counts).
Proof.
  change (2 ^ 64) with 18446744073709551616.
  revert d. induction counts as [|v counts IH]; intros d Hd Hnn Hlt; [simpl in Hd; lia|].
  apply Forall_cons in Hnn as [Hv Hnn]. pose proof (total_nonneg _ Hnn) as Ht.
  change (total (v :: counts)) with (v + total counts) in *.
  destruct d as [|d].
  - change (alter ulong_incr 0%nat (v :: counts)) with (ulong_incr v :: counts).
    change (total (ulong_incr v :: counts)) with (ulong_incr v + total counts).
    assert (ulong_incr v = v + 1) as ->.
    { unfold ulong_incr. change (2 ^ 64) with 18446744073709551616.
      apply Z.mod_small. lia. }
    split; [lia|]. constructor; [lia|done].
  - change (alter ulong_incr (S d) (v :: counts)) with (v :: alter ulong_incr d counts).
    change (total (v :: alter ulong_incr d counts))
      with (v + total (alter ulong_incr d counts)).
    destruct (IH d) as [E F]; [simpl in Hd; lia|done|lia|].
    split; [lia|]. by constructor.
Qed.

(** One count more per digit plotted. *)
Lemma total_plots (ps : list (Z * Z)) (ds : list byte) (s : state) :
  Forall (fun b => is_digit b = true) ds -> (length ds <= length ps)%nat ->
  length (occurs s) = 10%nat -> Forall (fun v => 0 <= v) (occurs s) ->
  total (occurs s) + Z.of_nat (length ds) < 2 ^ 64 ->
  total (occurs (plots c ps ds s)) = total (occurs s) + Z.of_nat (length ds) /\
  length (occurs (plots c ps ds s)) = 10%nat /\
  Forall (fun v => 0 <= v) (occurs (plots c ps ds s)).
Proof.
  revert ds s. induction ps as [|[x y] ps IH]; intros [|b ds] s Hd Hl H10 Hnn Hlt;
    simpl in *; try lia; try (split; [lia|done]).
  apply Forall_cons in Hd as [Hb Hd].
  destruct (total_incr (occurs s) (digit_of b)) as [E F];
    [rewrite H10; by apply digit_of_lt|done|lia|].
  destruct (IH ds (plot c x y b s)) as (E' & L' & F'); simpl;
    rewrite ?length_alter; try done; try lia.
  split; [|done]. rewrite E'. simpl. lia.
Qed.

End Positions.

(** ** The scan *)

(** C1: the scan goes through the positions row by row ([y] from 0 to
    [ysize] outside, [x] from 0 to [xsize] inside, both bounds included):
    there are [(xsize + 1) * (ysize + 1)] of them, position [(x, y)] being
    number [y * (xsize + 1) + x].  The scan completes exactly when the stream
    starts with a digit for every position; it has then made, for each
    position in that order, one [fgetc] and the pixel write at that position
    for the stream element of that number, and has consumed one element per
    position.  Otherwise it exits with status 1, having done so for the
    digits [ds] before the first element that is not a digit (or before the
    end of the stream), which is the only other element it reads and for
    which it writes no pixel. *)
Theorem scan_row_major (c : colors) (xsize ysize : Z) (s : state) :
  0 <= xsize -> 0 <= ysize ->
  let ps := raster_positions xsize ysize in
  Z.of_nat (length ps) = (xsize + 1) * (ysize + 1) /\
  (forall x y, 0 <= x <= xsize -> 0 <= y <= ysize ->
     ps !! Z.to_nat (y * (xsize + 1) + x) = Some (x, y)) /\
  ((exists s', scan c xsize ysize s = Ret tt s') <->
   (length ps <= length (infile s))%nat /\
   Forall (fun b => is_digit b = true) (take (length ps) (infile s))) /\
  match scan c xsize ysize s with
  | Ret _ s' =>
      let ds := take (length ps) (infile s) in
      length ds = length ps /\
      Forall (fun b => is_digit b = true) ds /\
      infile s' = drop (length ps) (infile s) /\
      trace s' = trace s ++ (zip ps ds ≫= digit_events c)
  | Exit st s' =>
      exists ds rest r texts,
        infile s = ds ++ rest /\
        Forall (fun b => is_digit b = true) ds /\
        (length ds < length ps)%nat /\
        st = 1 /\
        infile s' = tail rest /\
        trace s' = trace s ++ (zip ps ds ≫= digit_events c)
                           ++ Fgetc r :: (Printf <$> texts) /\
        match rest with
        | [] => r = EOF /\ texts = msg_eof
        | b :: _ => r = code b /\ is_digit b = false /\
                    texts = (if is_newline b then msg_line_breaks else msg_unsupported)
        end
  end.
Proof.
  intros Hx Hy ps. split; [by apply length_raster_positions|].
  split; [intros; by apply lookup_raster_positions|].
  rewrite !scan_each. fold ps. split.
  - split.
    + intros [s' E]. apply each_ret_inv in E as (ds & Hi & Hd & Hl & _).
      rewrite Hi, length_app, <- Hl, take_app_length. split; [lia|done].
    + intros [Hl Hd].
      destruct (each_digits c ps (take (length ps) (infile s))
                  (drop (length ps) (infile s)) s) as [E _];
        [by rewrite take_drop|done|rewrite length_take; lia|].
      eauto.
  - destruct (each (scan_at c) ps s) as [[] s'|st s'] eqn:E.
    + apply each_ret_inv in E as (ds & Hi & Hd & Hl & ->).
      assert (take (length ps) (infile s) = ds) as Ht
        by (rewrite Hi, <- Hl; apply take_app_length).
      assert (drop (length ps) (infile s) = infile (plots c ps ds s)) as Hr
        by (rewrite Hi at 1; rewrite <- Hl; apply drop_app_length).
      cbv zeta. rewrite Ht, Hr, trace_plots. done.
    + apply each_exit_inv in E
        as (-> & ds & rest & s1 & r & err & Hi & Hd & Hl & -> & Hr & -> & Hk).
      exists ds, rest, r, (message err). split; [done|]. split; [done|].
      split; [done|]. split; [done|]. split; [simpl; by rewrite Hr|].
      split; [simpl; by rewrite trace_plots, <- app_assoc|].
      destruct rest as [|b rest].
      * by destruct Hk as [-> ->].
      * destruct Hk as (-> & Hb & ->). split; [done|]. split; [done|].
        by destruct (is_newline b).
Qed.

Lemma scan_row_major_witness :
  exists s',
    scan main_colors 1 1
      (State [] (bytes_of "0129x") (Some (blank 1 1)) (replicate 10 0)) = Ret tt s' /\
    infile s' = bytes_of "x" /\
    trace s' = [Fgetc 48; GdImageSetPixel 0 0 0; Fgetc 49; GdImageSetPixel 1 0 1;
                Fgetc 50; GdImageSetPixel 0 1 2; Fgetc 57; GdImageSetPixel 1 1 9].
Proof.
  destruct (scan_row_major main_colors 1 1
              (State [] (bytes_of "0129x") (Some (blank 1 1)) (replicate 10 0)))
    as (_ & _ & _ & H); [lia|lia|].
  destruct (scan main_colors 1 1
              (State [] (bytes_of "0129x") (Some (blank 1 1)) (replicate 10 0)))
    as [[] s'|st s'] eqn:E.
  - destruct H as (_ & _ & Hi & Ht). exists s'. split; [reflexivity|].
    split; [exact Hi|exact Ht].
  - exfalso. vm_compute in E. discriminate E.
Defined.

(** C4: when the stream holds at least [(xsize + 1) * (ysize + 1)] elements
    and the first [(xsize + 1) * (ysize + 1)] of them are digits, the scan
    completes (it takes no [exit] branch), and the ten counts, all zero
    before, then sum to [(xsize + 1) * (ysize + 1)]. *)
Theorem scan_digits_total (c : colors) (xsize ysize : Z) (s : state) :
  1 <= xsize <= 3000 -> 1 <= ysize <= 3000 ->
  occurs s = replicate 10 0 ->
  (xsize + 1) * (ysize + 1) <= Z.of_nat (length (infile s)) ->
  Forall (fun b => is_digit b = true)
         (take (Z.to_nat ((xsize + 1) * (ysize + 1))) (infile s)) ->
  exists s', scan c xsize ysize s = Ret tt s' /\
             total (occurs s') = (xsize + 1) * (ysize + 1).
Proof.
  intros Hx Hy Ho Hlen Hd.
  pose proof (length_raster_positions xsize ysize ltac:(lia) ltac:(lia)) as Hn.
  set (ps := raster_positions xsize ysize) in *.
  set (n := Z.to_nat ((xsize + 1) * (ysize + 1))) in *.
  assert (length (take n (infile s)) = length ps) as Hl.
  { rewrite length_take. lia. }
  destruct (each_digits c ps (take n (infile s)) (drop n (infile s)) s) as [E _];
    [by rewrite take_drop|done|done|].
  exists (plots c ps (take n (infile s)) s). rewrite scan_each. split; [done|].
  destruct (total_plots c ps (take n (infile s)) s) as [T _];
    try done; rewrite ?Ho; try done; try lia.
  - repeat constructor; lia.
  - change (total (replicate 10 0)) with 0.
    change (2 ^ 64) with 18446744073709551616.
    assert ((xsize + 1) * (ysize + 1) <= 3001 * 3001)
      by (apply Z.mul_le_mono_nonneg; lia).
    lia.
  - rewrite T, Ho, Hl. change (total (replicate 10 0)) with 0. lia.
Qed.

Lemma scan_digits_total_witness :
  exists s', scan main_colors 1 1 (State [] (bytes_of "01234") None (replicate 10 0))
             = Ret tt s' /\ total (occurs s') = (1 + 1) * (1 + 1).
Proof.
  apply (scan_digits_total main_colors 1 1
           (State [] (bytes_of "01234") None (replicate 10 0)));
    [lia|lia|reflexivity|vm_compute; discriminate|].
  vm_compute. repeat constructor.
Defined.

(** ** The three ways out of the scan *)

(** C6: when, after digits [ds] that do not fill all the positions, the next
    element is a line feed, the scan exits there with status 1 and the
    line-break messages: [s1] being the state the scan of the first
    [length ds] positions leaves, the exit state has the trace of [s1]
    followed by the [fgetc] that returned 10 and the three messages, the image
    and the counts of [s1] untouched, and the stream [rest] after the line
    feed unread. *)
Theorem line_break_aborts (c : colors) (xsize ysize : Z) (s : state)
    (ds : list byte) (b : byte) (rest : list byte) :
  0 <= xsize -> 0 <= ysize ->
  infile s = ds ++ b :: rest ->
  Forall (fun d => is_digit d = true) ds ->
  Z.of_nat (length ds) < (xsize + 1) * (ysize + 1) ->
  is_newline b = true ->
  let ps := raster_positions xsize ysize in
  let s1 := plots c ps ds s in
  each (scan_at c) (take (length ds) ps) s = Ret tt s1 /\
  scan c xsize ysize s =
    Exit 1 {| trace := trace s1 ++ Fgetc 10 :: (Printf <$> msg_line_breaks);
              infile := rest; img := img s1; occurs := occurs s1 |}.
Proof.
  intros Hx Hy Hi Hd Hl Hb ps s1.
  pose proof (length_raster_positions xsize ysize Hx Hy) as Hn. fold ps in Hn.
  assert (is_digit b = false) as Hnd.
  { unfold is_newline in Hb. unfold is_digit. apply Z.eqb_eq in Hb. rewrite Hb. done. }
  destruct (each_abort c ps ds (b :: rest) s) as (E1 & E2 & E3); [done|done|lia|done|].
  split; [done|]. rewrite scan_each. fold ps. rewrite E3, Hb.
  unfold abort. rewrite E2. simpl.
  unfold is_newline in Hb. apply Z.eqb_eq in Hb. by rewrite Hb.
Qed.

Lemma line_break_aborts_witness :
  scan main_colors 1 1 (State [] (bytes_of "01" ++ [Byte.x0a] ++ bytes_of "23") None (replicate 10 0)) =
  Exit 1 {| trace := [Fgetc 48; GdImageSetPixel 0 0 0; Fgetc 49; GdImageSetPixel 1 0 1;
                      Fgetc 10] ++ (Printf <$> msg_line_breaks);
            infile := bytes_of "23"; img := None; occurs := [1; 1; 0; 0; 0; 0; 0; 0; 0; 0] |}.
Proof.
  apply (line_break_aborts main_colors 1 1
           (State [] (bytes_of "01" ++ [Byte.x0a] ++ bytes_of "23") None (replicate 10 0))
           (bytes_of "01") Byte.x0a (bytes_of "23"));
    [lia|lia|reflexivity|repeat constructor|vm_compute; reflexivity|reflexivity].
Defined.

(** C7: when the stream is all digits but shorter than the number of
    positions (by one element, or by more), the scan exits with status 1 and
    the end-of-file messages, right after the [fgetc] that returned [EOF];
    and a scan never completes on fewer elements than positions. *)
Theorem premature_eof_aborts (c : colors) (xsize ysize : Z) (s : state) :
  0 <= xsize -> 0 <= ysize ->
  let ps := raster_positions xsize ysize in
  (Forall (fun d => is_digit d = true) (infile s) ->
   Z.of_nat (length (infile s)) < (xsize + 1) * (ysize + 1) ->
   let s1 := plots c ps (infile s) s in
   each (scan_at c) (take (length (infile s)) ps) s = Ret tt s1 /\
   scan c xsize ysize s =
     Exit 1 {| trace := trace s1 ++ Fgetc EOF :: (Printf <$> msg_eof);
               infile := []; img := img s1; occurs := occurs s1 |}) /\
  (forall s', scan c xsize ysize s = Ret tt s' ->
     (xsize + 1) * (ysize + 1) <= Z.of_nat (length (infile s))).
Proof.
  intros Hx Hy ps.
  pose proof (length_raster_positions xsize ysize Hx Hy) as Hn. fold ps in Hn. split.
  - intros Hd Hl s1.
    destruct (each_abort c ps (infile s) [] s) as (E1 & E2 & E3);
      [by rewrite app_nil_r|done|lia|done|].
    split; [done|]. rewrite scan_each. fold ps. rewrite E3.
    unfold abort. by rewrite E2.
  - intros s' E. rewrite scan_each in E.
    apply each_ret_inv in E as (ds & Hi & _ & Hl & _).
    rewrite Hi, length_app. fold ps in Hl. lia.
Qed.

Lemma premature_eof_aborts_witness :
  scan main_colors 1 1 (State [] (bytes_of "012") None (replicate 10 0)) =
  Exit 1 {| trace := [Fgetc 48; GdImageSetPixel 0 0 0; Fgetc 49; GdImageSetPixel 1 0 1;
                      Fgetc 50; GdImageSetPixel 0 1 2; Fgetc (-1)] ++ (Printf <$> msg_eof);
            infile := []; img := None; occurs := [1; 1; 1; 0; 0; 0; 0; 0; 0; 0] |}.
Proof.
  destruct (premature_eof_aborts main_colors 1 1
              (State [] (bytes_of "012") None (replicate 10 0))) as [H _]; [lia|lia|].
  apply H; [repeat constructor|vm_compute; reflexivity].
Defined.

(** C8: when, after digits [ds] that do not fill all the positions, the next
    element is a byte that is neither a digit nor the line feed, the scan
    exits there with status 1 and the unsupported-character messages; image,
    counts and the stream after that byte are left as they were. *)
Theorem unsupported_character_aborts (c : colors) (xsize ysize : Z) (s : state)
    (ds : list byte) (b : byte) (rest : list byte) :
  0 <= xsize -> 0 <= ysize ->
  infile s = ds ++ b :: rest ->
  Forall (fun d => is_digit d = true) ds ->
  Z.of_nat (length ds) < (xsize + 1) * (ysize + 1) ->
  is_digit b = false -> is_newline b = false ->
  let ps := raster_positions xsize ysize in
  let s1 := plots c ps ds s in
  each (scan_at c) (take (length ds) ps) s = Ret tt s1 /\
  scan c xsize ysize s =
    Exit 1 {| trace := trace s1 ++ Fgetc (code b) :: (Printf <$> msg_unsupported);
              infile := rest; img := img s1; occurs := occurs s1 |}.
Proof.
  intros Hx Hy Hi Hd Hl Hnd Hb ps s1.
  pose proof (length_raster_positions xsize ysize Hx Hy) as Hn. fold ps in Hn.
  destruct (each_abort c ps ds (b :: rest) s) as (E1 & E2 & E3); [done|done|lia|done|].
  split; [done|]. rewrite scan_each. fold ps. rewrite E3, Hb.
  unfold abort. by rewrite E2.
Qed.

Lemma unsupported_character_aborts_witness :
  scan main_colors 1 1 (State [] (bytes_of "0A23") None (replicate 10 0)) =
  Exit 1 {| trace := [Fgetc 48; GdImageSetPixel 0 0 0; Fgetc 65] ++ (Printf <$> msg_unsupported);
            infile := bytes_of "23"; img := None; occurs := [1; 0; 0; 0; 0; 0; 0; 0; 0; 0] |}.
Proof.
  apply (unsupported_character_aborts main_colors 1 1
           (State [] (bytes_of "0A23") None (replicate 10 0))
           (bytes_of "0") "A"%byte (bytes_of "23"));
    [lia|lia|reflexivity|repeat constructor|vm_compute; reflexivity|reflexivity|reflexivity].
Defined.

(** ** The whole run *)

Lemma int_mul_exact (a b : Z) :
  1 <= a <= 3000 -> 1 <= b <= 3000 -> int_mul a b = a * b.
Proof.
  intros Ha Hb. unfold int_mul, int_wrap.
  change (2 ^ 31) with 2147483648. change (2 ^ 32) with 4294967296.
  assert (1 <= a * b <= 3000 * 3000) by nia.
  rewrite Z.mod_small by lia. lia.
Qed.

(** The size check fails: nothing but printing has happened. *)
Lemma run_too_small (cfg : config) (e : env) (name : string) (contents : list byte) :
  infilename cfg = Some name -> input e = Some contents -> fstat_ok e = true ->
  Z.of_nat (length contents) < int_mul (xsize cfg) (ysize cfg) ->
  run cfg e =
  Exit 1 {| trace := opening name (Z.of_nat (length contents)) ++ (Printf <$> msg_too_small);
            infile := contents; img := None; occurs := replicate 10 0 |}.
Proof.
  intros Hn Hi Hf Hs. unfold run, main, check_size. rewrite Hn, Hi, Hf.
  destruct (Z.gtb_spec (int_mul (xsize cfg) (ysize cfg)) (Z.of_nat (length contents)));
    [reflexivity|lia].
Qed.

(** The size check passes and the output file opens: the loops start. *)
Lemma run_ready (cfg : config) (e : env) (name : string) (contents : list byte) :
  infilename cfg = Some name -> input e = Some contents -> fstat_ok e = true ->
  int_mul (xsize cfg) (ysize cfg) <= Z.of_nat (length contents) ->
  output_ok e = true ->
  run cfg e =
  (scan main_colors (xsize cfg) (ysize cfg) ;; finish (xsize cfg) (ysize cfg))
    (ready cfg name contents).
Proof.
  intros Hn Hi Hf Hs Ho. unfold run, main, check_size. rewrite Hn, Hi, Hf, Ho.
  destruct (Z.gtb_spec (int_mul (xsize cfg) (ysize cfg)) (Z.of_nat (length contents)));
    [lia|reflexivity].
Qed.


Lemma stream_same (cfg : config) (name : string) (contents : list byte) :
  outfilename cfg = name -> stream cfg name contents = [].
Proof. unfold stream. intros ->. by rewrite String.eqb_refl. Qed.

(** The loops read a byte: the output file is not the input file. *)
Lemma stream_digits (cfg : config) (name : string) (contents ds rest : list byte) :
  stream cfg name contents = ds ++ rest -> (0 < length ds)%nat ->
  outfilename cfg <> name /\ contents = ds ++ rest.
Proof.
  unfold stream. destruct (String.eqb_spec (outfilename cfg) name); intros H Hl; [|done].
  destruct ds; simpl in *; [lia|done].
Qed.

(** The three exits before the size check, and the one after it: status 1,
    only printing, and the last message is none of the four of [message]. *)
Lemma run_early (cfg : config) (e : env) :
  infilename cfg = None \/ input e = None \/ fstat_ok e = false \/
  (output_ok e = false /\
   forall contents, input e = Some contents ->
     int_mul (xsize cfg) (ysize cfg) <= Z.of_nat (length contents)) ->
  exists texts t s,
    run cfg e = Exit 1 s /\ trace s = Printf <$> (texts ++ [t]) /\
    forall err, t <> final err.
Proof.
  intros H. unfold run, main, check_size.
  destruct (infilename cfg) as [name|];
    [|eexists [], _, _; repeat split; try reflexivity; by intros []].
  destruct H as [H|H]; [done|].
  destruct (input e) as [contents|];
    [|eexists [_; _; _; _], _, _; repeat split; try reflexivity; by intros []].
  destruct H as [H|H]; [done|]. cbv beta iota.
  destruct (fstat_ok e);
    [|eexists [_; _; _; _; _; _], _, _; repeat split; try reflexivity; by intros []].
  destruct H as [H|[Ho H]]; [done|]. rewrite Ho. specialize (H contents eq_refl).
  destruct (Z.gtb_spec (int_mul (xsize cfg) (ysize cfg)) (Z.of_nat (length contents)));
    [lia|].
  exists (((fun ev => match ev with Printf t => t | _ => EmptyString end)
             <$> opening name (Z.of_nat (length contents)))
            ++ [("Creating output file: " ++ outfilename cfg ++ "...")%string; nl]),
    ("Error opening output file!" ++ nl)%string,
    {| trace := opening name (Z.of_nat (length contents))
                  ++ [Printf ("Creating output file: " ++ outfilename cfg ++ "...");
                      Printf nl; Printf ("Error opening output file!" ++ nl)];
       infile := contents; img := None; occurs := replicate 10 0 |}.
  split; [reflexivity|]. split; [reflexivity|]. by intros [].
Qed.

Lemma prints_ret : prints (mret tt).
Proof. intros [tr i im o]. exists []. simpl. by rewrite app_nil_r. Qed.

Lemma prints_printf (text : string) : prints (printf text).
Proof. intros s. by exists [text]. Qed.

Lemma prints_bind (m k : M unit) : prints m -> prints k -> prints (m ;; k).
Proof.
  intros Hm Hk s. destruct (Hm s) as [t1 E1].
  rewrite (bind_ret _ _ _ _ _ E1).
  match goal with |- context [k ?s1] => destruct (Hk s1) as [t2 ->] end.
  exists (t1 ++ t2). simpl. by rewrite fmap_app, app_assoc.
Qed.

Lemma prints_rounds (n : nat) (i : Z) (body : Z -> M unit) :
  (forall j, prints (body j)) -> prints (rounds n i body).
Proof.
  intros Hb. revert i. induction n as [|n IH]; intros i; simpl.
  - apply prints_ret.
  - apply prints_bind; [apply Hb|apply IH].
Qed.

Lemma prints_report (xsize ysize : Z) : prints (report xsize ysize).
Proof.
  unfold report. repeat (apply prints_bind; [apply prints_printf|]).
  apply prints_bind; [|apply prints_printf].
  apply prints_rounds. intros i s. unfold mbind, M_bind, occurs_get.
  destruct (_ >? 0); [apply prints_printf|apply prints_ret].
Qed.

(** After a completed scan: the image goes to the encoder, the summary is
    printed, the exit status is 0. *)
Lemma finish_spec (xsize ysize : Z) (s : state) (im : gdImage) :
  img s = Some im ->
  exists texts,
    finish xsize ysize s =
    Exit 0 {| trace := trace s ++ Printf ("Done" ++ nl) :: GdImagePng im
                               :: (Printf <$> texts);
              infile := infile s; img := img s; occurs := occurs s |}.
Proof.
  destruct s as [tr i oim oc]. simpl. intros ->. unfold finish.
  destruct (prints_report xsize ysize
              {| trace := tr ++ [Printf ("Done" ++ nl); GdImagePng im];
                 infile := i; img := Some im; occurs := oc |})
    as [texts E].
  simpl in E.
  exists (texts ++ [("Closing files..." ++ nl)%string;
                    ("Flushing memory..." ++ nl)%string;
                    ("Done." ++ nl)%string]).
  erewrite bind_ret by reflexivity.
  erewrite bind_ret by reflexivity.
  simpl. rewrite <- app_assoc. simpl.
  erewrite bind_ret by exact E.
  unfold mbind, M_bind, printf, emit, exit. simpl.
  rewrite fmap_app, <- !app_assoc. simpl. reflexivity.
Qed.

Lemma encoded_app (t1 t2 : list event) : encoded (t1 ++ t2) = encoded t1 ++ encoded t2.
Proof. apply omap_app. Qed.

Lemma encoded_printf (texts : list string) : encoded (Printf <$> texts) = [].
Proof. induction texts; [done|]. simpl. done. Qed.

Lemma encoded_digit_events (c : colors) (l : list (Z * Z * byte)) :
  encoded (l ≫= digit_events c) = [].
Proof.
  induction l as [|[[x y] b] l IH]; [done|].
  rewrite bind_cons, encoded_app, IH. done.
Qed.

Lemma opened_app (t1 t2 : list event) : opened (t1 ++ t2) = opened t1 ++ opened t2.
Proof. apply omap_app. Qed.

Lemma opened_printf (texts : list string) : opened (Printf <$> texts) = [].
Proof. induction texts; [done|]. simpl. done. Qed.

Lemma opened_digit_events (c : colors) (l : list (Z * Z * byte)) :
  opened (l ≫= digit_events c) = [].
Proof.
  induction l as [|[[x y] b] l IH]; [done|].
  rewrite bind_cons, opened_app, IH. done.
Qed.

Lemma reads_app (t1 t2 : list event) : reads (t1 ++ t2) = reads t1 ++ reads t2.
Proof. apply omap_app. Qed.

Lemma reads_printf (texts : list string) : reads (Printf <$> texts) = [].
Proof. induction texts; [done|]. simpl. done. Qed.

Lemma reads_digit_events (c : colors) (ps : list (Z * Z)) (ds : list byte) :
  reads (zip ps ds ≫= digit_events c) = code <$> take (length ps) ds.
Proof.
  revert ds. induction ps as [|[x y] ps IH]; intros [|b ds]; try done.
  change (zip ((x, y) :: ps) (b :: ds)) with ((x, y, b) :: zip ps ds).
  rewrite bind_cons, reads_app, IH. done.
Qed.

(** Nothing goes to the encoder during the scan, and a scan that exits does
    so with status 1. *)
Lemma scan_encoded (c : colors) (xsize ysize : Z) (s : state) :
  match scan c xsize ysize s with
  | Ret _ s' => encoded (trace s') = encoded (trace s)
  | Exit st s' => st = 1 /\ encoded (trace s') = encoded (trace s)
  end.
Proof.
  rewrite scan_each.
  destruct (each (scan_at c) (raster_positions xsize ysize) s) as [[] s'|st s'] eqn:E.
  - apply each_ret_inv in E as (ds & _ & _ & _ & ->).
    by rewrite trace_plots, encoded_app, encoded_digit_events, app_nil_r.
  - apply each_exit_inv in E
      as (-> & ds & rest & s1 & r & err & _ & _ & _ & -> & _ & -> & _).
    split; [done|]. unfold abort. simpl.
    rewrite trace_plots, !encoded_app, encoded_digit_events.
    change (Fgetc r :: (Printf <$> message err)) with ([Fgetc r] ++ (Printf <$> message err)).
    rewrite encoded_app, encoded_printf. simpl. by rewrite ?app_nil_r.
Qed.

Lemma last_message (pre : list event) (err : error) :
  last (pre ++ (Printf <$> message err)) = Some (Printf (final err)).
Proof.
  assert (exists init, message err = init ++ [final err]) as [init ->].
  { destruct err; [by exists (take 3 msg_too_small)|by exists (take 2 msg_line_breaks)
                  |by exists (take 1 msg_eof)|by exists (take 1 msg_unsupported)]. }
  rewrite fmap_app, app_assoc. apply last_snoc.
Qed.

(** The four kinds of failure exclude one another. *)
Lemma fails_with_inj (o : outcome unit) (err1 err2 : error) :
  fails_with o err1 -> fails_with o err2 -> err1 = err2.
Proof.
  intros (s1 & pre1 & -> & E1) (s2 & pre2 & [= <-] & E2).
  pose proof (last_message pre1 err1) as L1. pose proof (last_message pre2 err2) as L2.
  rewrite <- E1 in L1. rewrite <- E2, L1 in L2. injection L2 as L2.
  by destruct err1, err2.
Qed.

(** A run that exits in the loops: status 1, one of the three kinds. *)
Lemma run_scan_exit (cfg : config) (e : env) (name : string) (contents : list byte)
    (st : Z) (s' : state) :
  infilename cfg = Some name -> input e = Some contents -> fstat_ok e = true ->
  int_mul (xsize cfg) (ysize cfg) <= Z.of_nat (length contents) ->
  output_ok e = true ->
  scan main_colors (xsize cfg) (ysize cfg) (ready cfg name contents) = Exit st s' ->
  run cfg e = Exit 1 s' /\ st = 1 /\ encoded (trace s') = [] /\
  exists err, err <> InsufficientData /\ fails_with (run cfg e) err.
Proof.
  intros Hn Hi Hf Hs Ho E. rewrite (run_ready cfg e name contents) by done.
  pose proof (scan_encoded main_colors (xsize cfg) (ysize cfg) (ready cfg name contents))
    as Henc.
  rewrite (bind_exit _ _ _ _ _ E). rewrite E in Henc. destruct Henc as [-> Henc].
  split; [done|]. split; [done|]. split; [by rewrite Henc|].
  rewrite scan_each in E.
  apply each_exit_inv in E
    as (_ & ds & rest & s1 & r & err & _ & _ & _ & -> & _ & -> & Hk).
  exists err. split.
  - destruct rest as [|b rest]; [by destruct Hk as [_ ->]|].
    destruct Hk as (_ & _ & ->). by destruct (is_newline b).
  - match goal with |- context [abort r _ ?s1] =>
      exists (abort r (message err) s1), (trace s1 ++ [Fgetc r]) end.
    split; [reflexivity|]. unfold abort. simpl. by rewrite <- app_assoc.
Qed.

(** A run that gets through the loops: status 0, the image as the scan left
    it goes to the encoder, once. *)
Lemma run_scan_ret (cfg : config) (e : env) (name : string) (contents : list byte)
    (s' : state) :
  infilename cfg = Some name -> input e = Some contents -> fstat_ok e = true ->
  int_mul (xsize cfg) (ysize cfg) <= Z.of_nat (length contents) ->
  output_ok e = true ->
  scan main_colors (xsize cfg) (ysize cfg) (ready cfg name contents) = Ret tt s' ->
  exists im texts,
    img s' = Some im /\
    run cfg e =
      Exit 0 {| trace := trace s' ++ Printf ("Done" ++ nl) :: GdImagePng im
                                  :: (Printf <$> texts);
                infile := infile s'; img := img s'; occurs := occurs s' |} /\
    encoded (trace s' ++ Printf ("Done" ++ nl) :: GdImagePng im :: (Printf <$> texts))
      = [im].
Proof.
  intros Hn Hi Hf Hs Ho E. rewrite (run_ready cfg e name contents) by done.
  pose proof (scan_encoded main_colors (xsize cfg) (ysize cfg) (ready cfg name contents))
    as Henc.
  rewrite (bind_ret _ _ _ _ _ E). rewrite E in Henc.
  assert (exists im, img s' = Some im) as [im Him].
  { rewrite scan_each in E. apply each_ret_inv in E as (ds & _ & _ & _ & ->).
    rewrite img_plots. simpl. eauto. }
  destruct (finish_spec (xsize cfg) (ysize cfg) s' im Him) as [texts ->].
  exists im, texts. split; [done|]. split; [done|].
  rewrite encoded_app, Henc. simpl. by rewrite encoded_printf.
Qed.

(** Every run ends in [exit], in one of four ways. *)
Lemma run_cases (cfg : config) (e : env) :
  (exists texts t s, run cfg e = Exit 1 s /\ trace s = Printf <$> (texts ++ [t]) /\
                     forall err, t <> final err) \/
  (exists name contents,
     infilename cfg = Some name /\ input e = Some contents /\ fstat_ok e = true /\
     ((Z.of_nat (length contents) < int_mul (xsize cfg) (ysize cfg) /\
       run cfg e =
         Exit 1 {| trace := opening name (Z.of_nat (length contents))
                              ++ (Printf <$> msg_too_small);
                   infile := contents; img := None; occurs := replicate 10 0 |}) \/
      (int_mul (xsize cfg) (ysize cfg) <= Z.of_nat (length contents) /\
       output_ok e = true /\
       ((exists st s', scan main_colors (xsize cfg) (ysize cfg)
                         (ready cfg name contents) = Exit st s') \/
        (exists s', scan main_colors (xsize cfg) (ysize cfg)
                      (ready cfg name contents) = Ret tt s'))))).
Proof.
  destruct (infilename cfg) as [name|] eqn:Hn; [|left; apply run_early; auto].
  destruct (input e) as [contents|] eqn:Hi; [|left; apply run_early; auto].
  destruct (fstat_ok e) eqn:Hf; [|left; apply run_early; auto].
  destruct (Z.lt_ge_cases (Z.of_nat (length contents)) (int_mul (xsize cfg) (ysize cfg)))
    as [Hs|Hs].
  { right. exists name, contents. repeat split; try done. left. split; [done|].
    by apply run_too_small. }
  destruct (output_ok e) eqn:Ho.
  - right. exists name, contents. repeat split; try done. right. repeat split; try done.
    destruct (scan main_colors (xsize cfg) (ysize cfg) (ready cfg name contents))
      as [[] s'|st s']; eauto.
  - left. apply run_early. right. right. right. split; [done|].
    intros c0 Hc. rewrite Hi in Hc. by injection Hc as <-.
Qed.

Lemma early_not_fails (o : outcome unit) (err : error) :
  (exists texts t s, o = Exit 1 s /\ trace s = Printf <$> (texts ++ [t]) /\
                     forall err, t <> final err) ->
  ~ fails_with o err.
Proof.
  intros (texts & t & s & -> & Et & Ht) (s2 & pre & [= <-] & E2).
  pose proof (last_message pre err) as L. rewrite <- E2, Et, fmap_app in L.
  simpl in L. rewrite last_snoc in L. injection L as L. by apply (Ht err).
Qed.

(** C2: with the input file open and measured, the run fails with the
    insufficient-data messages exactly when the file holds fewer than
    [xsize * ysize] bytes ([xsize * ysize] bytes pass the check); it then
    exits before anything else is done: only [printf] calls were made, the
    input is unread, no output file was opened, there is no image, and the
    counts are zero. *)
Theorem size_check (cfg : config) (e : env) (name : string) (contents : list byte) :
  infilename cfg = Some name -> input e = Some contents -> fstat_ok e = true ->
  1 <= xsize cfg <= 3000 -> 1 <= ysize cfg <= 3000 ->
  (fails_with (run cfg e) InsufficientData <->
   Z.of_nat (length contents) < xsize cfg * ysize cfg) /\
  (Z.of_nat (length contents) < xsize cfg * ysize cfg ->
   run cfg e =
   Exit 1 {| trace := opening name (Z.of_nat (length contents))
                        ++ (Printf <$> msg_too_small);
             infile := contents; img := None; occurs := replicate 10 0 |}) /\
  (forall st_size s, xsize cfg * ysize cfg <= st_size ->
     check_size (xsize cfg) (ysize cfg) st_size s = Ret tt s).
Proof.
  intros Hn Hi Hf Hx Hy.
  pose proof (int_mul_exact _ _ Hx Hy) as Hm.
  assert (Z.of_nat (length contents) < xsize cfg * ysize cfg ->
          run cfg e =
          Exit 1 {| trace := opening name (Z.of_nat (length contents))
                               ++ (Printf <$> msg_too_small);
                    infile := contents; img := None; occurs := replicate 10 0 |}) as Hsmall.
  { intros Hlt. apply run_too_small; try done. by rewrite Hm. }
  split; [|split; [done|]].
  - split.
    + intros Hfail.
      destruct (Z.lt_ge_cases (Z.of_nat (length contents)) (xsize cfg * ysize cfg))
        as [|Hge]; [done|exfalso].
      rewrite <- Hm in Hge.
      destruct (output_ok e) eqn:Ho.
      * destruct (scan main_colors (xsize cfg) (ysize cfg) (ready cfg name contents))
          as [[] s'|st s'] eqn:E.
        -- destruct (run_scan_ret cfg e name contents s') as (im & texts & _ & Er & _);
             try done.
           destruct Hfail as (s2 & pre & E2 & _). by rewrite Er in E2.
        -- destruct (run_scan_exit cfg e name contents st s')
             as (_ & _ & _ & err & Hne & Herr); try done.
           apply Hne. by apply (fails_with_inj (run cfg e)).
      * apply (early_not_fails (run cfg e) InsufficientData); [|done].
        apply run_early. right. right. right. split; [done|].
        intros c0 Hc. rewrite Hi in Hc. by injection Hc as <-.
    + intros Hlt. eexists _, _. split; [by apply Hsmall|]. reflexivity.
  - intros st_size s Hge. unfold check_size. rewrite Hm.
    by destruct (Z.gtb_spec (xsize cfg * ysize cfg) st_size); [lia|].
Qed.

Lemma size_check_witness :
  fails_with (run (Config (Some "in"%string) "out.png" 2 2)
                  (Env (Some (bytes_of "012")) true true)) InsufficientData /\
  ~ fails_with (run (Config (Some "in"%string) "out.png" 2 2)
                    (Env (Some (bytes_of "0123")) true true)) InsufficientData.
Proof.
  split.
  - apply (size_check (Config (Some "in"%string) "out.png" 2 2)
             (Env (Some (bytes_of "012")) true true) "in" (bytes_of "012"));
      try reflexivity; simpl; lia.
  - intros H.
    apply (size_check (Config (Some "in"%string) "out.png" 2 2)
             (Env (Some (bytes_of "0123")) true true) "in" (bytes_of "0123")) in H;
      try reflexivity; simpl in *; lia.
Defined.

(** C9: each of the four error conditions ends the run on the spot, with
    status 1 and without an image.  With the input file open and measured,
    a file of fewer than [xsize * ysize] bytes makes the run exit with the
    insufficient-data messages as the last thing it does, before the output
    file is opened and before there is an image.  Otherwise, when the digits
    [ds] at the start of the stream do not fill all the positions and are
    followed by a line feed, by another byte that is not a digit, or by the
    end of the stream, the run exits with status 1 right after the messages
    of that element: its trace ends with the [fgetc] that returned the
    element and these messages, nothing goes to the encoder, the rest of the
    stream is unread, and the image, never encoded, holds the digits plotted
    so far. *)
Theorem scan_error_no_image (cfg : config) (e : env) (name : string)
    (contents : list byte) :
  infilename cfg = Some name -> input e = Some contents -> fstat_ok e = true ->
  1 <= xsize cfg <= 3000 -> 1 <= ysize cfg <= 3000 ->
  let ps := raster_positions (xsize cfg) (ysize cfg) in
  (Z.of_nat (length contents) < xsize cfg * ysize cfg ->
   exists s,
     run cfg e = Exit 1 s /\
     trace s = opening name (Z.of_nat (length contents))
               ++ (Printf <$> message InsufficientData) /\
     encoded (trace s) = [] /\ opened (trace s) = [] /\ img s = None) /\
  (forall ds rest,
     xsize cfg * ysize cfg <= Z.of_nat (length contents) ->
     output_ok e = true ->
     stream cfg name contents = ds ++ rest ->
     Forall (fun b => is_digit b = true) ds ->
     Z.of_nat (length ds) < (xsize cfg + 1) * (ysize cfg + 1) ->
     match rest with [] => True | b :: _ => is_digit b = false end ->
     let r := match rest with [] => EOF | b :: _ => code b end in
     let err := match rest with
                | [] => PrematureEOF
                | b :: _ => if is_newline b then UnexpectedLineBreak
                            else UnsupportedCharacter
                end in
     exists s,
       run cfg e = Exit 1 s /\
       trace s = trace (ready cfg name contents)
                 ++ (zip ps ds ≫= digit_events main_colors)
                 ++ Fgetc r :: (Printf <$> message err) /\
       encoded (trace s) = [] /\
       infile s = tail rest /\
       img s = Some (paint main_colors ps ds (blank (xsize cfg) (ysize cfg)))).
Proof.
  intros Hn Hi Hf Hx Hy ps.
  pose proof (int_mul_exact _ _ Hx Hy) as Hm.
  pose proof (length_raster_positions (xsize cfg) (ysize cfg) ltac:(lia) ltac:(lia)) as Hps.
  fold ps in Hps. split.
  - intros Hlt. eexists. split; [apply (run_too_small cfg e name contents); try done; lia|].
    cbn [trace img]. split; [done|]. split; [|split; [|done]].
    + by rewrite encoded_app, encoded_printf.
    + by rewrite opened_app, opened_printf.
  - intros ds rest Hge Ho Hs Hd Hl Hk r err.
    destruct (each_abort main_colors ps ds rest (ready cfg name contents))
      as (_ & E2 & E3); [done|done|lia|done|].
    assert (scan main_colors (xsize cfg) (ysize cfg) (ready cfg name contents) =
            Exit 1 (abort r (message err)
                      (plots main_colors ps ds (ready cfg name contents)))) as E.
    { rewrite scan_each. fold ps. rewrite E3. subst r err.
      destruct rest as [|b rest]; [done|]. by destruct (is_newline b). }
    eexists. split.
    { rewrite (run_ready cfg e name contents) by (try done; lia).
      apply (bind_exit _ _ _ _ _ E). }
    unfold abort. cbn [trace infile img]. rewrite trace_plots, E2, img_plots.
    split; [by rewrite <- app_assoc|]. split; [|done].
    rewrite !encoded_app, encoded_digit_events.
    change (Fgetc r :: (Printf <$> message err))
      with ([Fgetc r] ++ (Printf <$> message err)).
    by rewrite encoded_app, encoded_printf.
Qed.

Lemma scan_error_no_image_witness :
  exists s,
    run (Config (Some "in"%string) "out.png" 1 1)
        (Env (Some (bytes_of "0" ++ [Byte.x0a] ++ bytes_of "12")) true true) = Exit 1 s /\
    trace s = trace (ready (Config (Some "in"%string) "out.png" 1 1) "in"
                       (bytes_of "0" ++ [Byte.x0a] ++ bytes_of "12"))
              ++ [Fgetc 48; GdImageSetPixel 0 0 0; Fgetc 10]
              ++ (Printf <$> msg_line_breaks) /\
    encoded (trace s) = [] /\
    infile s = bytes_of "12".
Proof.
  destruct (scan_error_no_image (Config (Some "in"%string) "out.png" 1 1)
              (Env (Some (bytes_of "0" ++ [Byte.x0a] ++ bytes_of "12")) true true)
              "in" (bytes_of "0" ++ [Byte.x0a] ++ bytes_of "12"))
    as [_ H]; [reflexivity|reflexivity|reflexivity|simpl; lia|simpl; lia|].
  destruct (H (bytes_of "0") (Byte.x0a :: bytes_of "12"))
    as (s & Er & Ht & Henc & Hin & _);
    [simpl; lia|reflexivity|reflexivity|repeat constructor|simpl; lia|reflexivity|].
  exists s. split; [exact Er|]. split; [exact Ht|]. split; [exact Henc|exact Hin].
Defined.

(** C3 (the code departs from it): at 1 x 1 on the input [0000] the run
    succeeds, reports [Occurrences out of 1], and its ten counts sum to 4,
    not to [xsize * ysize = 1]: the loops also visit column [xsize] and row
    [ysize]. *)
Theorem occurs_total_at_1x1 :
  exists s,
    run (Config (Some "in"%string) "out.png" 1 1)
        (Env (Some (bytes_of "0000")) true true) = Exit 0 s /\
    occurs s = [4; 0; 0; 0; 0; 0; 0; 0; 0; 0] /\
    total (occurs s) = 4 /\ 1 * 1 = 1 /\
    Printf ("Occurrences out of 1:" ++ nl) ∈ trace s /\
    Printf ("Character: 0 - 4" ++ nl) ∈ trace s.
Proof.
  eexists. split; [vm_compute; reflexivity|].
  split; [reflexivity|]. split; [reflexivity|]. split; [reflexivity|].
  split; apply list_elem_of_In; simpl; tauto.
Qed.

(** ** The image of a successful run *)

Lemma color_of_main (b : byte) :
  is_digit b = true -> color_of main_colors b = Z.of_nat (digit_of b).
Proof. destruct b; intros H; try discriminate H; reflexivity. Qed.

Lemma gd_pixel_outside (im : gdImage) (x y : Z) :
  well_formed im -> gd_bounds_safe im x y = false -> gd_pixel im x y = None.
Proof.
  intros [Hl Hr] Hb. unfold gd_pixel.
  destruct (Z.leb_spec 0 x), (Z.leb_spec 0 y); simpl; try done.
  destruct (pixels im !! Z.to_nat y) as [row|] eqn:Hrow; simpl; [|done].
  apply lookup_ge_None_2. rewrite (Forall_lookup_1 _ _ _ _ Hr Hrow).
  apply lookup_lt_Some in Hrow.
  destruct (gd_bounds_safe im x y) eqn:Hs; [done|].
  destruct (decide (x < sx im)); [|lia].
  assert (gd_bounds_safe im x y = true); [|congruence].
  apply gd_bounds_safe_spec. lia.
Qed.

(** A completed scan read a digit for each position. *)
Lemma scan_ret_inv (c : colors) (xsize ysize : Z) (s s' : state) :
  0 <= xsize -> 0 <= ysize -> scan c xsize ysize s = Ret tt s' ->
  exists ds, infile s = ds ++ infile s' /\ Forall (fun b => is_digit b = true) ds /\
             Z.of_nat (length ds) = (xsize + 1) * (ysize + 1) /\
             s' = plots c (raster_positions xsize ysize) ds s.
Proof.
  intros Hx Hy E. rewrite scan_each in E.
  apply each_ret_inv in E as (ds & Hi & Hd & Hl & ->).
  exists ds. repeat split; try done.
  rewrite Hl. by apply length_raster_positions.
Qed.

(** The pixel at an inside position holds the colour of the digit read at
    that position; the others do not matter. *)
Lemma paint_inside (c : colors) (xsize ysize : Z) (ds : list byte) (im : gdImage)
    (x y : Z) :
  well_formed im -> sx im = xsize -> sy im = ysize ->
  Z.of_nat (length ds) = (xsize + 1) * (ysize + 1) ->
  0 <= x < xsize -> 0 <= y < ysize ->
  exists b, ds !! Z.to_nat (y * (xsize + 1) + x) = Some b /\
    gd_pixel (paint c (raster_positions xsize ysize) ds im) x y
      = Some (color_of c b mod 256).
Proof.
  intros Hwf Hsx Hsy Hl Hx Hy.
  destruct (lookup_lt_is_Some_2 ds (Z.to_nat (y * (xsize + 1) + x))) as [b Hb]; [nia|].
  exists b. split; [done|].
  eapply paint_lookup; eauto using NoDup_raster_positions.
  - apply lookup_raster_positions; lia.
  - apply gd_bounds_safe_spec. lia.
Qed.

(** A run with exit status 0 went through the loops. *)
Lemma run_success_inv (cfg : config) (e : env) (s : state) :
  run cfg e = Exit 0 s ->
  exists name contents s' im,
    input e = Some contents /\
    scan main_colors (xsize cfg) (ysize cfg) (ready cfg name contents) = Ret tt s' /\
    img s' = Some im /\ encoded (trace s) = [im] /\
    infile s = infile s' /\ img s = img s' /\ occurs s = occurs s'.
Proof.
  intros Er.
  destruct (run_cases cfg e)
    as [(texts & t & s0 & E0 & _)
       |(name & contents & Hn & Hi & Hf & [[Hlt E0]|(Hge & Ho & [(st & s' & E)|[s' E]])])].
  - by rewrite E0 in Er.
  - by rewrite E0 in Er.
  - destruct (run_scan_exit cfg e name contents st s') as (E0 & _); try done.
    by rewrite E0 in Er.
  - destruct (run_scan_ret cfg e name contents s') as (im & texts & Him & E0 & Henc);
      try done.
    rewrite E0 in Er. injection Er as <-. by exists name, contents, s', im.
Qed.

(** C10: after a successful run the image handed to the encoder is the
    [xsize] by [ysize] image; all [(xsize + 1) * (ysize + 1)] positions have
    each consumed a stream element and raised a count, but a write at column
    [xsize] or row [ysize] falls outside the image and is dropped; the pixel
    at an inside position [(x, y)] holds the colour of the digit that is
    element number [y * (xsize + 1) + x] of the stream, so that two inputs
    that agree at those elements give the same image. *)
Theorem extra_positions_clipped (cfg : config) (e : env) (s : state) :
  1 <= xsize cfg <= 3000 -> 1 <= ysize cfg <= 3000 ->
  run cfg e = Exit 0 s ->
  let w := xsize cfg in
  let h := ysize cfg in
  exists contents im,
    input e = Some contents /\
    encoded (trace s) = [im] /\
    sx im = w /\ sy im = h /\ palette im = main_palette /\ well_formed im /\
    (w + 1) * (h + 1) <= Z.of_nat (length contents) /\
    infile s = drop (Z.to_nat ((w + 1) * (h + 1))) contents /\
    total (occurs s) = (w + 1) * (h + 1) /\
    (forall im0 x y color, sx im0 = w -> sy im0 = h -> x = w \/ y = h ->
       gd_bounds_safe im0 x y = false /\ gd_set_pixel im0 x y color = im0) /\
    (forall x y, x = w \/ y = h -> gd_pixel im x y = None) /\
    (forall x y, 0 <= x < w -> 0 <= y < h ->
       exists b, contents !! Z.to_nat (y * (w + 1) + x) = Some b /\
                 is_digit b = true /\
                 gd_pixel im x y = Some (Z.of_nat (digit_of b))) /\
    (forall e2 contents2 s2,
       input e2 = Some contents2 -> run cfg e2 = Exit 0 s2 ->
       (forall x y, 0 <= x < w -> 0 <= y < h ->
          contents2 !! Z.to_nat (y * (w + 1) + x)
            = contents !! Z.to_nat (y * (w + 1) + x)) ->
       encoded (trace s2) = [im]).
Proof.
  intros Hx Hy Er w h.
  assert (forall im0 x y, sx im0 = w -> sy im0 = h -> x = w \/ y = h ->
            gd_bounds_safe im0 x y = false) as Hout.
  { intros im0 x y Hsx Hsy Hxy. destruct (gd_bounds_safe im0 x y) eqn:Hb; [|done].
    apply gd_bounds_safe_spec in Hb. lia. }
  assert (forall e1 s1, run cfg e1 = Exit 0 s1 ->
            exists contents ds im,
              input e1 = Some contents /\ encoded (trace s1) = [im] /\
              contents = ds ++ infile s1 /\ Forall (fun b => is_digit b = true) ds /\
              Z.of_nat (length ds) = (w + 1) * (h + 1) /\
              im = paint main_colors (raster_positions w h) ds (blank w h) /\
              occurs s1 = occurs (plots main_colors (raster_positions w h) ds
                                    (State [] [] None (replicate 10 0)))) as Hrun.
  { intros e1 s1 E1.
    apply run_success_inv in E1
      as (name & contents & s' & im & Hi & Es & Him & Henc & -> & _ & ->).
    apply scan_ret_inv in Es as (ds & Hds & Hd & Hl & ->); [|lia|lia].
    change (infile (ready cfg name contents)) with (stream cfg name contents) in Hds.
    apply stream_digits in Hds as [_ Hds]; [|nia].
    rewrite img_plots in Him. injection Him as <-.
    exists contents, ds, (paint main_colors (raster_positions w h) ds (blank w h)).
    repeat split; try done.
    assert (forall ps bs t1 t2, occurs t1 = occurs t2 ->
              occurs (plots main_colors ps bs t1) = occurs (plots main_colors ps bs t2)) as G.
    { induction ps as [|[x y] ps IH]; intros [|b bs] t1 t2 Ho; simpl; try done.
      apply IH. simpl. by rewrite Ho. }
    by apply G. }
  destruct (Hrun e s Er) as (contents & ds & im & Hi & Henc & Hc & Hd & Hl & Him & Ho).
  destruct (paint_frame main_colors (raster_positions w h) ds (blank w h))
    as (Hwf & Hsx & Hsy & Hpal); [apply (well_formed_create w h)|].
  rewrite <- Him in Hwf, Hsx, Hsy, Hpal. simpl in Hsx, Hsy, Hpal.
  assert (forall x y, 0 <= x < w -> 0 <= y < h ->
            exists b, ds !! Z.to_nat (y * (w + 1) + x) = Some b /\
                      is_digit b = true /\
                      gd_pixel im x y = Some (Z.of_nat (digit_of b))) as Hin.
  { intros x y Hx' Hy'.
    destruct (paint_inside main_colors w h ds (blank w h) x y) as (b & Hb & Hp);
      try done; [apply (well_formed_create w h)|].
    pose proof (Forall_lookup_1 _ _ _ _ Hd Hb) as Hdig. simpl in Hdig.
    exists b. split; [done|]. split; [done|].
    rewrite Him, Hp, color_of_main by done.
    pose proof (digit_of_lt b Hdig). f_equal. apply Z.mod_small. lia. }
  exists contents, im. split_and!; try done.
  - rewrite Hc, length_app. lia.
  - rewrite Hc. replace (Z.to_nat ((w + 1) * (h + 1))) with (length ds) by lia.
    by rewrite drop_app_length.
  - rewrite Ho.
    destruct (total_plots main_colors (raster_positions w h) ds
                (State [] [] None (replicate 10 0))) as [T _]; try done.
    + pose proof (length_raster_positions w h ltac:(lia) ltac:(lia)). lia.
    + simpl. repeat constructor; lia.
    + simpl. change (2 ^ 64) with 18446744073709551616.
      assert ((w + 1) * (h + 1) <= 3001 * 3001)
        by (apply Z.mul_le_mono_nonneg; lia).
      lia.
    + rewrite T. simpl. lia.
  - intros im0 x y color Hsx0 Hsy0 Hxy.
    split; [|apply gd_set_pixel_outside]; by apply Hout.
  - intros x y Hxy. apply gd_pixel_outside; [done|]. by apply Hout.
  - intros x y Hx' Hy'. destruct (Hin x y Hx' Hy') as (b & Hb & Hdig & Hp).
    exists b. split; [|done]. rewrite Hc. apply lookup_app_l_Some. done.
  - intros e2 contents2 s2 Hi2 E2 Hagree.
    destruct (Hrun e2 s2 E2)
      as (contents2' & ds2 & im2 & Hi2' & Henc2 & Hc2 & Hd2 & Hl2 & Him2 & _).
    rewrite Hi2 in Hi2'. injection Hi2' as <-.
    rewrite Henc2. f_equal.
    destruct (paint_frame main_colors (raster_positions w h) ds2 (blank w h))
      as (Hwf2 & Hsx2 & Hsy2 & Hpal2); [apply (well_formed_create w h)|].
    rewrite <- Him2 in Hwf2, Hsx2, Hsy2, Hpal2. simpl in Hsx2, Hsy2, Hpal2.
    apply gd_image_ext; try done; try congruence.
    rewrite Hsx2, Hsy2. intros x y Hx' Hy'.
    destruct (paint_inside main_colors w h ds (blank w h) x y) as (b & Hb & Hp);
      try done; [apply (well_formed_create w h)|].
    destruct (paint_inside main_colors w h ds2 (blank w h) x y) as (b2 & Hb2 & Hp2);
      try done; [apply (well_formed_create w h)|].
    rewrite Him, Him2, Hp, Hp2.
    specialize (Hagree x y Hx' Hy').
    rewrite Hc, Hc2 in Hagree.
    rewrite (lookup_app_l_Some _ _ _ _ Hb), (lookup_app_l_Some _ _ _ _ Hb2) in Hagree.
    by injection Hagree as ->.
Qed.

Lemma extra_positions_clipped_witness :
  exists s im,
    run (Config (Some "in"%string) "out.png" 1 1)
        (Env (Some (bytes_of "7123")) true true) = Exit 0 s /\
    encoded (trace s) = [im] /\ sx im = 1 /\ sy im = 1 /\
    gd_pixel im 0 0 = Some 7 /\ gd_pixel im 1 0 = None /\ total (occurs s) = 4.
Proof.
  assert (exists s, run (Config (Some "in"%string) "out.png" 1 1)
                        (Env (Some (bytes_of "7123")) true true) = Exit 0 s) as [s Er]
    by (eexists; vm_compute; reflexivity).
  destruct (extra_positions_clipped
              (Config (Some "in"%string) "out.png" 1 1)
              (Env (Some (bytes_of "7123")) true true) s)
    as (contents & im & Hi & Henc & Hsx & Hsy & _ & _ & _ & _ & Ht & _ & Hnone & Hin & _);
    [simpl; lia|simpl; lia|exact Er|].
  exists s, im. split; [exact Er|]. split; [exact Henc|].
  split; [exact Hsx|]. split; [exact Hsy|].
  split; [|split; [apply Hnone; by left|exact Ht]].
  destruct (Hin 0 0) as (b & Hb & _ & Hp); [simpl; lia|simpl; lia|].
  simpl in Hi. injection Hi as <-. simpl in Hb. injection Hb as <-. exact Hp.
Defined.

(** * The digit colours *)




(** * The command line *)

Lemma switch_opt {T : Type} (a b c d e f : T) (opt : Z) :
  match opt with 105 => a | 111 => b | 120 => c | 121 => d | 104 => e | _ => f end =
  if opt =? 105 then a else if opt =? 111 then b else if opt =? 120 then c
  else if opt =? 121 then d else if opt =? 104 then e else f.
Proof.
  destruct opt as [|p|p]; try reflexivity.
  do 7 (try (destruct p as [p|p|]; try reflexivity)).
Qed.

(** The [switch] of the option loop as a chain of comparisons. *)
Lemma option_switch_spec (atoi : string -> Z) (opt : Z) (optarg : string) (cfg : config) :
  option_switch atoi opt optarg cfg =
  if opt =? 105 then
    mret {| infilename := Some optarg; outfilename := outfilename cfg;
            xsize := xsize cfg; ysize := ysize cfg |}
  else if opt =? 111 then
    mret {| infilename := infilename cfg; outfilename := optarg;
            xsize := xsize cfg; ysize := ysize cfg |}
  else if opt =? 120 then
    (if (atoi optarg >? 3000) || (atoi optarg <=? 0)
     then printf ("Invalid X dimension." ++ nl) ;; exit 1 else mret tt) ;;
    mret {| infilename := infilename cfg; outfilename := outfilename cfg;
            xsize := atoi optarg; ysize := ysize cfg |}
  else if opt =? 121 then
    (if (atoi optarg >? 3000) || (atoi optarg <=? 0)
     then printf ("Invalid Y dimension." ++ nl) ;; exit 1 else mret tt) ;;
    mret {| infilename := infilename cfg; outfilename := outfilename cfg;
            xsize := xsize cfg; ysize := atoi optarg |}
  else if opt =? 104 then help ;; exit 0
  else printf ("Unknown option. Use -h for help, or see README." ++ nl) ;; exit 0.
Proof. apply switch_opt. Qed.

Lemma range_test (v : Z) :
  (v >? 3000) || (v <=? 0) = negb ((1 <=? v) && (v <=? 3000)).
Proof.
  destruct (Z.gtb_spec v 3000), (Z.leb_spec v 0), (Z.leb_spec 1 v), (Z.leb_spec v 3000);
    simpl; try done; lia.
Qed.

(** One accepted result: the variable of that option is set, nothing is
    printed. *)
Lemma option_switch_accepted (atoi : string -> Z) (opt : Z) (optarg : string)
    (cfg : config) (s : state) :
  accepted atoi (opt, optarg) = true ->
  option_switch atoi opt optarg cfg s =
  Ret {| infilename := if opt =? 105 then Some optarg else infilename cfg;
         outfilename := if opt =? 111 then optarg else outfilename cfg;
         xsize := if opt =? 120 then atoi optarg else xsize cfg;
         ysize := if opt =? 121 then atoi optarg else ysize cfg |} s.
Proof.
  unfold accepted. simpl. intros Ha. rewrite option_switch_spec.
  destruct (Z.eqb_spec opt 105) as [->|]; [by destruct cfg|].
  destruct (Z.eqb_spec opt 111) as [->|]; [by destruct cfg|].
  simpl in Ha. apply andb_true_iff in Ha as [Ha H2]. apply andb_true_iff in Ha as [Ha H1].
  rewrite range_test, H1, H2. simpl.
  destruct (Z.eqb_spec opt 120) as [->|]; [by destruct cfg|].
  destruct (Z.eqb_spec opt 121) as [->|]; [by destruct cfg|]. done.
Qed.

(** One result that is not accepted: the program exits. *)
Lemma option_switch_rejected (atoi : string -> Z) (opt : Z) (optarg : string)
    (cfg : config) (s : state) :
  accepted atoi (opt, optarg) = false ->
  option_switch atoi opt optarg cfg s =
  Exit (rejection opt).1
       {| trace := trace s ++ (Printf <$> (rejection opt).2); infile := infile s;
          img := img s; occurs := occurs s |}.
Proof.
  unfold accepted, rejection. simpl. intros Ha. rewrite option_switch_spec.
  destruct (Z.eqb_spec opt 105) as [->|]; [done|].
  destruct (Z.eqb_spec opt 111) as [->|]; [done|]. simpl in Ha.
  destruct (Z.eqb_spec opt 120) as [->|].
  { simpl in Ha. rewrite range_test.
    destruct ((1 <=? atoi optarg) && (atoi optarg <=? 3000)); [done|]. reflexivity. }
  destruct (Z.eqb_spec opt 121) as [->|].
  { simpl in Ha. rewrite range_test.
    destruct ((1 <=? atoi optarg) && (atoi optarg <=? 3000)); [done|]. reflexivity. }
  destruct (Z.eqb_spec opt 104) as [->|]; simpl.
  - unfold help. unfold mbind, M_bind. by rewrite printfs_spec.
  - reflexivity.
Qed.

Lemma accepted_not_EOF (atoi : string -> Z) (opt : Z) (optarg : string) :
  accepted atoi (opt, optarg) = true -> (opt =? EOF) = false.
Proof.
  unfold accepted, EOF. simpl. intros Ha.
  destruct (Z.eqb_spec opt (-1)) as [->|]; [by vm_compute in Ha|done].
Qed.

Lemma last_arg_cons (opt : Z) (r : Z * string) (results : list (Z * string)) :
  last_arg opt (r :: results) =
  match last_arg opt results with
  | Some a => Some a
  | None => if r.1 =? opt then Some r.2 else None
  end.
Proof.
  unfold last_arg.
  set (f := fun r0 : Z * string => if r0.1 =? opt then Some r0.2 else None).
  change (omap f (r :: results))
    with (match f r with Some a => a :: omap f results | None => omap f results end).
  unfold f at 1. destruct (r.1 =? opt); [|by destruct (last _)].
  destruct (omap f results) as [|a l]; [done|].
  rewrite last_cons. by destruct (last (a :: l)).
Qed.

(** A loop over accepted results returns, having printed nothing, with each
    variable set by the last result for it. *)
Lemma options_loop_accepted (atoi : string -> Z) (results : list (Z * string))
    (cfg : config) (s : state) :
  Forall (fun r => accepted atoi r = true) results ->
  options_loop atoi results cfg s =
  Ret {| infilename := match last_arg 105 results with
                       | Some a => Some a | None => infilename cfg end;
         outfilename := default (outfilename cfg) (last_arg 111 results);
         xsize := from_option atoi (xsize cfg) (last_arg 120 results);
         ysize := from_option atoi (ysize cfg) (last_arg 121 results) |} s.
Proof.
  intros Hacc. revert cfg. induction Hacc as [|[opt optarg] results Ha _ IH]; intros cfg.
  - by destruct cfg.
  - simpl. rewrite (accepted_not_EOF atoi opt optarg Ha).
    erewrite bind_ret by (by apply option_switch_accepted).
    rewrite IH. rewrite !last_arg_cons. simpl.
    f_equal. f_equal.
    + destruct (last_arg 105 results); [done|]. by destruct (opt =? 105).
    + destruct (last_arg 111 results); [done|]. by destruct (opt =? 111).
    + destruct (last_arg 120 results); [done|]. by destruct (opt =? 120).
    + destruct (last_arg 121 results); [done|]. by destruct (opt =? 121).
Qed.

Lemma accepted_size (atoi : string -> Z) (opt : Z) (optarg : string) :
  accepted atoi (opt, optarg) = true -> opt = 120 \/ opt = 121 ->
  1 <= atoi optarg <= 3000.
Proof.
  unfold accepted. simpl. intros Ha Ho.
  assert ((opt =? 105) = false /\ (opt =? 111) = false) as [E1 E2].
  { destruct Ho as [->| ->]; done. }
  rewrite E1, E2 in Ha. simpl in Ha.
  apply andb_true_iff in Ha as [Ha H2]. apply andb_true_iff in Ha as [_ H1]. lia.
Qed.

(** A loop that returns has printed nothing and keeps the sizes within
    1 .. 3000. *)
Lemma options_loop_ret_inv (atoi : string -> Z) (results : list (Z * string))
    (cfg0 cfg : config) (s s' : state) :
  options_loop atoi results cfg0 s = Ret cfg s' ->
  s' = s /\ (valid_sizes cfg0 -> valid_sizes cfg).
Proof.
  revert cfg0. induction results as [|[opt optarg] results IH]; intros cfg0 E; simpl in E.
  - by injection E as <- <-.
  - destruct (opt =? EOF); [by injection E as <- <-|].
    destruct (accepted atoi (opt, optarg)) eqn:Ha.
    + erewrite bind_ret in E by (by apply option_switch_accepted).
      apply IH in E as [-> Hv]. split; [done|]. intros [Hx Hy]. apply Hv.
      split; simpl.
      * destruct (Z.eqb_spec opt 120) as [->|]; [|done].
        apply (accepted_size atoi 120 optarg); auto.
      * destruct (Z.eqb_spec opt 121) as [->|]; [|done].
        apply (accepted_size atoi 121 optarg); auto.
    + erewrite bind_exit in E by (by apply option_switch_rejected). done.
Qed.

(** Accepted results first: the loop goes on with what follows. *)
Lemma options_loop_app (atoi : string -> Z) (pre rest : list (Z * string))
    (cfg : config) (s : state) :
  Forall (fun r => accepted atoi r = true) pre ->
  exists cfg1, options_loop atoi (pre ++ rest) cfg s = options_loop atoi rest cfg1 s.
Proof.
  intros Hacc. revert cfg. induction Hacc as [|[opt optarg] pre Ha _ IH]; intros cfg.
  - by exists cfg.
  - simpl. rewrite (accepted_not_EOF atoi opt optarg Ha).
    erewrite bind_ret by (by apply option_switch_accepted). apply IH.
Qed.

(** X1: whenever the option loop returns, it has printed nothing, both
    sizes lie between 1 and 3000 (the defaults 640 and 480 included), and
    their product, computed on [int] by the size check, does not overflow. *)
Theorem options_loop_sizes (atoi : string -> Z) (results : list (Z * string))
    (cfg : config) (s s' : state) :
  options_loop atoi results default_config s = Ret cfg s' ->
  s' = s /\ 1 <= xsize cfg <= 3000 /\ 1 <= ysize cfg <= 3000 /\
  int_mul (xsize cfg) (ysize cfg) = xsize cfg * ysize cfg.
Proof.
  intros E. apply options_loop_ret_inv in E as [-> Hv].
  destruct Hv as [Hx Hy]; [split; simpl; lia|].
  split; [done|]. split; [done|]. split; [done|]. by apply int_mul_exact.
Qed.

Lemma options_loop_sizes_witness :
  exists cfg,
    options_loop decimal_atoi
      [(120, "3000"%string); (105, "in"%string); (121, " +3000 px"%string)]
      default_config initial = Ret cfg initial /\
    1 <= xsize cfg <= 3000 /\ 1 <= ysize cfg <= 3000 /\
    int_mul (xsize cfg) (ysize cfg) = xsize cfg * ysize cfg.
Proof.
  exists (Config (Some "in"%string) "output.png" 3000 3000).
  split; [reflexivity|].
  apply (options_loop_sizes decimal_atoi
           [(120, "3000"%string); (105, "in"%string); (121, " +3000 px"%string)]
           (Config (Some "in"%string) "output.png" 3000 3000) initial initial).
  reflexivity.
Defined.

(** X2: when every result of [getopt_long] is accepted, the program is the
    rest of [main] run with, for each of [-i], [-o], [-x], [-y], the argument
    given last, and otherwise no input file, [output.png], 640 and 480; the
    sizes it runs with lie between 1 and 3000. *)
Theorem accepted_options_run (atoi : string -> Z) (results : list (Z * string)) (e : env) :
  Forall (fun r => accepted atoi r = true) results ->
  spectra atoi results e = run (config_of atoi results) e /\
  1 <= xsize (config_of atoi results) <= 3000 /\
  1 <= ysize (config_of atoi results) <= 3000.
Proof.
  intros Hacc.
  pose proof (options_loop_accepted atoi results default_config initial Hacc) as E.
  assert (options_loop atoi results default_config initial
          = Ret (config_of atoi results) initial) as E'.
  { rewrite E. unfold config_of. simpl. by destruct (last_arg 105 results). }
  split.
  - unfold spectra. by rewrite (bind_ret _ _ _ _ _ E').
  - apply options_loop_ret_inv in E' as [_ Hv]. apply Hv. split; simpl; lia.
Qed.

Lemma accepted_options_run_witness :
  spectra decimal_atoi
    [(120, "7"%string); (105, "a.txt"%string); (120, "2"%string); (111, "o.png"%string)]
    (Env None true true) =
  run (Config (Some "a.txt"%string) "o.png" 2 480) (Env None true true).
Proof.
  apply (accepted_options_run decimal_atoi
           [(120, "7"%string); (105, "a.txt"%string); (120, "2"%string);
            (111, "o.png"%string)] (Env None true true)).
  repeat constructor.
Defined.

(** X3: the first result that is not accepted ends the program: with
    status 1 and the invalid-dimension message for [-x] or [-y] with a size
    outside 1 .. 3000, with status 0 and the help text for [-h], with status
    0 and the unknown-option message for anything else.  Nothing else is
    printed, the results after it are not looked at, and no file is
    touched. *)
Theorem rejected_option_exits (atoi : string -> Z) (pre post : list (Z * string))
    (opt : Z) (optarg : string) (e : env) :
  Forall (fun r => accepted atoi r = true) pre ->
  accepted atoi (opt, optarg) = false -> opt <> EOF ->
  spectra atoi (pre ++ (opt, optarg) :: post) e =
  Exit (rejection opt).1
       {| trace := Printf <$> (rejection opt).2; infile := []; img := None;
          occurs := replicate 10 0 |}.
Proof.
  intros Hacc Hrej Hne. unfold spectra.
  destruct (options_loop_app atoi pre ((opt, optarg) :: post) default_config initial Hacc)
    as [cfg1 E].
  erewrite bind_exit; [reflexivity|]. rewrite E. simpl.
  destruct (Z.eqb_spec opt EOF); [done|].
  erewrite bind_exit; [reflexivity|]. by rewrite option_switch_rejected.
Qed.

Lemma rejected_option_exits_witness :
  spectra decimal_atoi [(105, "in"%string); (120, "abc"%string); (104, ""%string)]
    (Env None true true) =
  Exit 1 {| trace := [Printf ("Invalid X dimension." ++ nl)]; infile := []; img := None;
            occurs := replicate 10 0 |}.
Proof.
  apply (rejected_option_exits decimal_atoi [(105, "in"%string)] [(104, ""%string)]
           120 "abc" (Env None true true));
    [repeat constructor|reflexivity|discriminate].
Defined.

(** X5: when every result is accepted and none of them is [-i], the program
    prints that an input file is required and exits with status 1, whatever
    the files outside are. *)
Theorem missing_input_option (atoi : string -> Z) (results : list (Z * string)) (e : env) :
  Forall (fun r => accepted atoi r = true) results ->
  last_arg 105 results = None ->
  spectra atoi results e =
  Exit 1 {| trace := [Printf ("You must provide Spectra with an input file to process "
                                ++ "with the -i option." ++ nl)];
            infile := []; img := None; occurs := replicate 10 0 |}.
Proof.
  intros Hacc Hi.
  pose proof (options_loop_accepted atoi results default_config initial Hacc) as E.
  unfold spectra. rewrite (bind_ret _ _ _ _ _ E). unfold main. simpl. by rewrite Hi.
Qed.

Lemma missing_input_option_witness :
  spectra decimal_atoi [(120, "10"%string); (111, "o.png"%string)] (Env None true true) =
  Exit 1 {| trace := [Printf ("You must provide Spectra with an input file to process "
                                ++ "with the -i option." ++ nl)];
            infile := []; img := None; occurs := replicate 10 0 |}.
Proof.
  apply (missing_input_option decimal_atoi [(120, "10"%string); (111, "o.png"%string)]
           (Env None true true)); [repeat constructor|reflexivity].
Defined.

(** The loop either returns, having printed nothing, or exits at a result
    that is not accepted. *)
Lemma options_loop_cases (atoi : string -> Z) (results : list (Z * string))
    (cfg : config) (s : state) :
  (exists cfg', options_loop atoi results cfg s = Ret cfg' s) \/
  (exists opt, options_loop atoi results cfg s =
     Exit (rejection opt).1
          {| trace := trace s ++ (Printf <$> (rejection opt).2); infile := infile s;
             img := img s; occurs := occurs s |}).
Proof.
  revert cfg. induction results as [|[opt optarg] results IH]; intros cfg; simpl.
  - left. by exists cfg.
  - destruct (opt =? EOF); [left; by exists cfg|].
    destruct (accepted atoi (opt, optarg)) eqn:Ha.
    + erewrite bind_ret by (by apply option_switch_accepted). apply IH.
    + right. exists opt. erewrite bind_exit; [reflexivity|].
      by rewrite option_switch_rejected.
Qed.

Lemma rejection_status (opt : Z) : (rejection opt).1 = 0 \/ (rejection opt).1 = 1.
Proof.
  unfold rejection.
  destruct (opt =? 120); [by right|]. destruct (opt =? 121); [by right|].
  destruct (opt =? 104); by left.
Qed.

(** X4: whatever the command line and the files, the program ends by
    calling [exit] with status 0 or 1; it hands at most one image to the
    encoder, and none when the status is 1. *)
Theorem spectra_exit_status (atoi : string -> Z) (results : list (Z * string)) (e : env) :
  exists st s,
    spectra atoi results e = Exit st s /\ (st = 0 \/ st = 1) /\
    (length (encoded (trace s)) <= 1)%nat /\
    (st = 1 -> encoded (trace s) = []).
Proof.
  unfold spectra.
  destruct (options_loop_cases atoi results default_config initial) as [[cfg E]|[opt E]].
  - rewrite (bind_ret _ _ _ _ _ E). change (main cfg e initial) with (run cfg e).
    destruct (run_cases cfg e)
      as [(texts & t & s & Er & Et & _)
         |(name & contents & Hn & Hi & Hf & [[Hlt Er]|(Hge & Ho & [(st & s' & Es)|[s' Es]])])].
    + exists 1, s. rewrite Er, Et, encoded_printf. simpl. auto with lia.
    + eexists 1, _. split; [exact Er|]. simpl. auto with lia.
    + destruct (run_scan_exit cfg e name contents st s') as (Er & _ & Henc & _); try done.
      exists 1, s'. rewrite Er, Henc. simpl. auto with lia.
    + destruct (run_scan_ret cfg e name contents s') as (im & texts & _ & Er & Henc);
        try done.
      eexists 0, _. split; [exact Er|]. cbn [trace]. rewrite Henc. simpl.
      split; [by left|]. split; [lia|done].
  - rewrite (bind_exit _ _ _ _ _ E). eexists _, _. split; [reflexivity|].
    split; [apply rejection_status|]. simpl. rewrite encoded_printf. simpl.
    split; [lia|done].
Qed.

(** * What a run reads and opens *)

(** A run that passes the checks before the loops: it reads digits [ds]
    from the start of the stream, and either fills all positions and exits with
    status 0 after the encoder call, or exits with status 1 at the element
    after [ds]. *)
Lemma run_passed (cfg : config) (e : env) (name : string) (contents : list byte) :
  infilename cfg = Some name -> input e = Some contents -> fstat_ok e = true ->
  int_mul (xsize cfg) (ysize cfg) <= Z.of_nat (length contents) ->
  output_ok e = true ->
  exists ds rest st s,
    stream cfg name contents = ds ++ rest /\ Forall (fun b => is_digit b = true) ds /\
    run cfg e = Exit st s /\
    let ps := raster_positions (xsize cfg) (ysize cfg) in
    let s1 := plots main_colors ps ds (ready cfg name contents) in
    ((length ds = length ps /\ st = 0 /\ infile s = rest /\ occurs s = occurs s1 /\
      exists im texts,
        img s1 = Some im /\
        trace s = trace (ready cfg name contents) ++ (zip ps ds ≫= digit_events main_colors)
                  ++ Printf ("Done" ++ nl) :: GdImagePng im :: (Printf <$> texts)) \/
     ((length ds < length ps)%nat /\ st = 1 /\ infile s = tail rest /\
      exists r err,
        trace s = trace (ready cfg name contents) ++ (zip ps ds ≫= digit_events main_colors)
                  ++ Fgetc r :: (Printf <$> message err) /\
        match rest with
        | [] => r = EOF /\ err = PrematureEOF
        | b :: _ => r = code b /\ is_digit b = false /\
                    err = (if is_newline b then UnexpectedLineBreak
                           else UnsupportedCharacter)
        end)).
Proof.
  intros Hn Hi Hf Hle Ho.
  destruct (scan main_colors (xsize cfg) (ysize cfg) (ready cfg name contents))
    as [[] s'|st s'] eqn:E.
  - destruct (run_scan_ret cfg e name contents s') as (im & texts & Him & Er & _);
      try done.
    rewrite scan_each in E. apply each_ret_inv in E as (ds & Hds & Hd & Hl & ->).
    eexists ds, _, 0, _. split; [exact Hds|]. split; [done|]. split; [exact Er|].
    left. split; [done|]. split; [done|]. split; [done|]. split; [done|].
    exists im, texts. split; [done|]. cbn [trace].
    by rewrite trace_plots, <- app_assoc.
  - destruct (run_scan_exit cfg e name contents st s') as (Er & _); try done.
    rewrite scan_each in E.
    apply each_exit_inv in E
      as (_ & ds & rest & s1 & r & err & Hds & Hd & Hl & -> & Hr & -> & Hk).
    eexists ds, rest, 1, _. split; [exact Hds|]. split; [done|]. split; [exact Er|].
    right. split; [done|]. split; [done|]. split; [simpl; by rewrite Hr|].
    exists r, err. split; [|done]. simpl. by rewrite trace_plots, <- app_assoc.
Qed.



(** A run that does not pass the checks before the loops only prints, and
    exits with status 1. *)
Lemma run_not_passed (cfg : config) (e : env) :
  checks_pass cfg e = false ->
  exists texts s, run cfg e = Exit 1 s /\ trace s = Printf <$> texts.
Proof.
  unfold checks_pass. intros Hc.
  assert ((exists texts t s, run cfg e = Exit 1 s /\ trace s = Printf <$> (texts ++ [t]) /\
                             forall err, t <> final err) ->
          exists texts s, run cfg e = Exit 1 s /\ trace s = Printf <$> texts) as Hearly.
  { intros (texts & t & s & E & Et & _). by exists (texts ++ [t]), s. }
  destruct (infilename cfg) as [name|] eqn:Hn;
    [|eapply Hearly, run_early; auto].
  destruct (input e) as [contents|] eqn:Hi; [|eapply Hearly, run_early; auto].
  destruct (fstat_ok e) eqn:Hf; [|eapply Hearly, run_early; auto].
  simpl in Hc.
  destruct (Z.leb_spec (int_mul (xsize cfg) (ysize cfg)) (Z.of_nat (length contents)))
    as [Hle|Hgt].
  - simpl in Hc. eapply Hearly, run_early. right. right. right. split; [done|].
    intros c0 Hc0. rewrite Hi in Hc0. by injection Hc0 as <-.
  - eexists (_ :: _ :: _ :: _ :: _ :: _ :: msg_too_small), _.
    split; [by apply (run_too_small cfg e name contents)|reflexivity].
Qed.



(** X13: when [-o] names the input file, a run that passes the checks
    before the loops empties that file by opening it for writing, so that
    the first [fgetc] returns [EOF]: whatever the file held, the run exits
    with status 1 and the end-of-file messages, having read nothing and
    without an image. *)
Theorem output_over_input (cfg : config) (e : env) (name : string) (contents : list byte) :
  infilename cfg = Some name -> input e = Some contents ->
  fstat_ok e = true -> output_ok e = true ->
  outfilename cfg = name ->
  0 <= xsize cfg -> 0 <= ysize cfg ->
  int_mul (xsize cfg) (ysize cfg) <= Z.of_nat (length contents) ->
  exists s, run cfg e = Exit 1 s /\
    trace s = trace (ready cfg name contents) ++ Fgetc EOF :: (Printf <$> msg_eof) /\
    fails_with (run cfg e) PrematureEOF /\
    opened (trace s) = [name] /\
    reads (trace s) = [EOF] /\
    encoded (trace s) = [].
Proof.
  intros Hn Hi Hf Ho Hsame Hx Hy Hge.
  pose proof (length_raster_positions (xsize cfg) (ysize cfg) Hx Hy) as Hps.
  destruct (run_passed cfg e name contents)
    as (ds & rest & st & s & Hds & Hd1 & Er & Hcase); try done.
  rewrite stream_same in Hds by done.
  symmetry in Hds. apply app_eq_nil in Hds as [-> ->].
  destruct Hcase as [(Hl & _)|(Hl & -> & _ & r & err & Ht & [-> ->])];
    [simpl in Hl; nia|].
  rewrite zip_with_nil_r in Ht.
  change (trace s = trace (ready cfg name contents)
                    ++ [Fgetc EOF] ++ (Printf <$> msg_eof)) in Ht.
  exists s. split; [done|]. split; [done|].
  split; [|split; [|split]].
  - exists s, (trace (ready cfg name contents) ++ [Fgetc EOF]).
    split; [done|]. by rewrite Ht, <- app_assoc.
  - rewrite Ht, !opened_app, opened_printf. subst name. reflexivity.
  - rewrite Ht, !reads_app, reads_printf. reflexivity.
  - rewrite Ht, !encoded_app, encoded_printf. reflexivity.
Qed.

Lemma output_over_input_witness :
  exists s,
    run (Config (Some "data"%string) "data" 1 1)
        (Env (Some (bytes_of "0000")) true true) = Exit 1 s /\
    opened (trace s) = ["data"%string] /\ reads (trace s) = [-1] /\
    encoded (trace s) = [].
Proof.
  destruct (output_over_input (Config (Some "data"%string) "data" 1 1)
              (Env (Some (bytes_of "0000")) true true) "data" (bytes_of "0000"))
    as (s & Er & _ & _ & Ho & Hr & Henc); try reflexivity; try (simpl; lia);
    [vm_compute; discriminate|].
  exists s. split; [exact Er|]. split; [exact Ho|]. split; [exact Hr|exact Henc].
Defined.

(** X8: the output file is opened for writing exactly when the input file
    opens, [fstat] succeeds, the size check passes and the output file can
    be opened, and then once, before the first [fgetc]; otherwise the run
    exits with status 1 without having read a byte. *)
Theorem output_opened_iff_checks (cfg : config) (e : env) (st : Z) (s : state) :
  run cfg e = Exit st s ->
  opened (trace s) = (if checks_pass cfg e then [outfilename cfg] else []) /\
  (checks_pass cfg e = true ->
   exists pre post, trace s = pre ++ FopenW (outfilename cfg) :: post /\ reads pre = []) /\
  (checks_pass cfg e = false -> st = 1 /\ reads (trace s) = []).
Proof.
  intros Er. destruct (checks_pass cfg e) eqn:Hc.
  - unfold checks_pass in Hc.
    destruct (infilename cfg) as [name|] eqn:Hn; [|done].
    destruct (input e) as [contents|] eqn:Hi; [|done].
    apply andb_true_iff in Hc as [Hc Ho]. apply andb_true_iff in Hc as [Hf Hle].
    apply Z.leb_le in Hle.
    destruct (run_passed cfg e name contents)
      as (ds & rest & st' & s' & _ & _ & Er' & Hcase); try done.
    rewrite Er in Er'. injection Er' as <- <-.
    assert (exists post,
              trace s = trace (ready cfg name contents)
                        ++ (zip (raster_positions (xsize cfg) (ysize cfg)) ds
                              ≫= digit_events main_colors) ++ post /\
              opened post = []) as (post & Ht & Hp).
    { destruct Hcase as [(_ & _ & _ & _ & im & texts & _ & Ht)|(_ & _ & _ & r & err & Ht & _)].
      - eexists. split; [exact Ht|]. simpl. apply opened_printf.
      - eexists. split; [exact Ht|]. simpl. apply opened_printf. }
    split; [|split; [|done]].
    + by rewrite Ht, !opened_app, opened_digit_events, Hp.
    + intros _. eexists (opening name (Z.of_nat (length contents)) ++ [_]), _.
      split; [rewrite Ht; unfold ready; cbn [trace]; rewrite <- !app_assoc; reflexivity|].
      reflexivity.
  - destruct (run_not_passed cfg e Hc) as (texts & s' & Er' & Ht).
    rewrite Er in Er'. injection Er' as -> <-.
    split; [by rewrite Ht, opened_printf|]. split; [done|].
    intros _. split; [done|]. by rewrite Ht, reads_printf.
Qed.

Lemma output_opened_iff_checks_witness :
  exists s, run (Config (Some "in"%string) "out.png" 1 1)
                (Env (Some (bytes_of "0x")) true true) = Exit 1 s /\
            opened (trace s) = ["out.png"%string].
Proof.
  assert (exists s, run (Config (Some "in"%string) "out.png" 1 1)
                        (Env (Some (bytes_of "0x")) true true) = Exit 1 s) as [s Er]
    by (eexists; vm_compute; reflexivity).
  destruct (output_opened_iff_checks _ _ _ _ Er) as [H _].
  exists s. split; [exact Er|exact H].
Defined.

(** X12: for sizes that are not negative, no run calls [fgetc] more than
    [(xsize + 1) * (ysize + 1)] times; a run with status 0 calls it exactly
    that often, and the values returned are the bytes at the start of the
    input file, in order. *)
Theorem fgetc_calls_bounded (cfg : config) (e : env) (st : Z) (s : state) :
  0 <= xsize cfg -> 0 <= ysize cfg ->
  run cfg e = Exit st s ->
  Z.of_nat (length (reads (trace s))) <= (xsize cfg + 1) * (ysize cfg + 1) /\
  (st = 0 ->
   exists contents,
     input e = Some contents /\
     reads (trace s)
     = code <$> take (Z.to_nat ((xsize cfg + 1) * (ysize cfg + 1))) contents /\
     (xsize cfg + 1) * (ysize cfg + 1) <= Z.of_nat (length contents)).
Proof.
  intros Hx Hy Er.
  pose proof (length_raster_positions (xsize cfg) (ysize cfg) Hx Hy) as Hps.
  destruct (checks_pass cfg e) eqn:Hc.
  - unfold checks_pass in Hc.
    destruct (infilename cfg) as [name|] eqn:Hn; [|done].
    destruct (input e) as [contents|] eqn:Hi; [|done].
    apply andb_true_iff in Hc as [Hc Ho]. apply andb_true_iff in Hc as [Hf Hle].
    apply Z.leb_le in Hle.
    destruct (run_passed cfg e name contents)
      as (ds & rest & st' & s' & Hds & _ & Er' & Hcase); try done.
    rewrite Er in Er'. injection Er' as <- <-.
    destruct Hcase as [(Hl & -> & _ & _ & im & texts & _ & Ht)|(Hl & -> & _ & r & err & Ht & _)].
    + apply stream_digits in Hds as [_ Hds]; [|nia].
      assert (reads (trace s) = code <$> ds) as Hr.
      { rewrite Ht, !reads_app, reads_digit_events. simpl. rewrite reads_printf.
        rewrite take_ge by lia. by rewrite app_nil_r. }
      split; [rewrite Hr, length_fmap; lia|]. intros _. exists contents.
      split; [done|]. rewrite Hr, Hds. replace (Z.to_nat _) with (length ds) by lia.
      rewrite take_app_length, length_app. split; [done|lia].
    + split; [|done]. rewrite Ht, !reads_app, reads_digit_events. simpl.
      rewrite reads_printf, !length_app, length_fmap, length_take. simpl. lia.
  - destruct (run_not_passed cfg e Hc) as (texts & s' & Er' & Ht).
    rewrite Er in Er'. injection Er' as -> <-.
    rewrite Ht, reads_printf. simpl. split; [nia|done].
Qed.

Lemma fgetc_calls_bounded_witness :
  exists s, run (Config (Some "in"%string) "out.png" 1 1)
                (Env (Some (bytes_of "01234567")) true true) = Exit 0 s /\
            reads (trace s) = [48; 49; 50; 51].
Proof.
  assert (exists s, run (Config (Some "in"%string) "out.png" 1 1)
                        (Env (Some (bytes_of "01234567")) true true) = Exit 0 s) as [s Er]
    by (eexists; vm_compute; reflexivity).
  destruct (fgetc_calls_bounded (Config (Some "in"%string) "out.png" 1 1)
              (Env (Some (bytes_of "01234567")) true true) 0 s)
    as [_ H]; [simpl; lia|simpl; lia|exact Er|].
  destruct (H eq_refl) as (contents & Hi & Hr & _).
  simpl in Hi. injection Hi as <-. exists s. split; [exact Er|exact Hr].
Defined.

(** * The counts and the summary *)

Lemma count_digit_cons (d : nat) (b : byte) (l : list byte) :
  count_digit d (b :: l) = (if decide (digit_of b = d) then 1 else 0) + count_digit d l.
Proof.
  unfold count_digit. rewrite filter_cons. destruct (decide (digit_of b = d)); simpl; lia.
Qed.

(** Count [d] goes up by the number of digits [d] plotted, as long as it does
    not wrap around. *)
Lemma occurs_plots_count (c : colors) (ps : list (Z * Z)) (ds : list byte) (s : state)
    (d : nat) (v : Z) :
  (length ds <= length ps)%nat ->
  occurs s !! d = Some v -> 0 <= v -> v + Z.of_nat (length ds) < 2 ^ 64 ->
  occurs (plots c ps ds s) !! d = Some (v + count_digit d ds).
Proof.
  change (2 ^ 64) with 18446744073709551616.
  revert ds s v. induction ps as [|[x y] ps IH]; intros [|b ds] s v Hl Hv H0 Hlt;
    cbn [plots length] in *; try lia;
    try (unfold count_digit; simpl; by rewrite Z.add_0_r).
  rewrite count_digit_cons. destruct (decide (digit_of b = d)) as [Hd|Hne].
  - rewrite (IH ds _ (v + 1)); [f_equal; lia|lia| |lia|lia].
    cbn [plot occurs]. rewrite Hd, list_lookup_alter_eq, Hv. simpl. f_equal.
    unfold ulong_incr. change (2 ^ 64) with 18446744073709551616.
    apply Z.mod_small. lia.
  - rewrite (IH ds _ v); [f_equal; lia|lia| |lia|lia].
    cbn [plot occurs]. by rewrite list_lookup_alter_ne.
Qed.

Lemma length_occurs_plots (c : colors) (ps : list (Z * Z)) (ds : list byte) (s : state) :
  length (occurs (plots c ps ds s)) = length (occurs s).
Proof.
  revert ds s. induction ps as [|[x y] ps IH]; intros [|b ds] s; simpl; try done.
  rewrite IH. simpl. apply length_alter.
Qed.

(** From zero counts, plotting [ds] (fewer than [2 ^ 64] bytes) leaves the
    histogram of [ds]. *)
Lemma occurs_plots_histogram (c : colors) (ps : list (Z * Z)) (ds : list byte) (s : state) :
  (length ds <= length ps)%nat -> occurs s = replicate 10 0 ->
  Z.of_nat (length ds) < 2 ^ 64 ->
  occurs (plots c ps ds s) = histogram ds.
Proof.
  intros Hl Ho Hlt. apply list_eq. intros d.
  destruct (decide (d < 10)%nat) as [Hd|Hd].
  - rewrite (occurs_plots_count c ps ds s d 0); try done; try lia.
    + unfold histogram. rewrite list_lookup_fmap, lookup_seq_lt by done. done.
    + rewrite Ho. by apply lookup_replicate_2.
  - rewrite !lookup_ge_None_2; try done.
    + unfold histogram. rewrite length_fmap, length_seq. lia.
    + rewrite length_occurs_plots, Ho, length_replicate. lia.
Qed.

(** X9: a scan that completes from zero counts, for sizes up to 3000, leaves
    in [occurs] the histogram of the stream elements it consumed: count [d]
    is the number of digits [d] among the first
    [(xsize + 1) * (ysize + 1)] elements, whatever comes after them. *)
Theorem histogram_counts (c : colors) (xsize ysize : Z) (s s' : state) :
  0 <= xsize <= 3000 -> 0 <= ysize <= 3000 ->
  occurs s = replicate 10 0 ->
  scan c xsize ysize s = Ret tt s' ->
  occurs s' = histogram (take (Z.to_nat ((xsize + 1) * (ysize + 1))) (infile s)).
Proof.
  intros Hx Hy Ho E.
  apply scan_ret_inv in E as (ds & Hds & _ & Hl & ->); [|lia|lia].
  pose proof (length_raster_positions xsize ysize ltac:(lia) ltac:(lia)) as Hps.
  rewrite Hds. replace (Z.to_nat _) with (length ds) by lia. rewrite take_app_length.
  apply occurs_plots_histogram; [lia|done|].
  change (2 ^ 64) with 18446744073709551616.
  assert ((xsize + 1) * (ysize + 1) <= 3001 * 3001)
    by (apply Z.mul_le_mono_nonneg; lia).
  lia.
Qed.

Lemma histogram_counts_witness :
  exists s',
    scan main_colors 1 1 (State [] (bytes_of "70779") None (replicate 10 0)) = Ret tt s' /\
    occurs s' = [1; 0; 0; 0; 0; 0; 0; 3; 0; 0].
Proof.
  assert (exists s', scan main_colors 1 1
                       (State [] (bytes_of "70779") None (replicate 10 0)) = Ret tt s')
    as [s' E] by (eexists; vm_compute; reflexivity).
  exists s'. split; [exact E|].
  apply (histogram_counts main_colors 1 1
           (State [] (bytes_of "70779") None (replicate 10 0)) s');
    [lia|lia|reflexivity|exact E].
Defined.

(** One round of the loop of the summary. *)
Lemma report_round (i : Z) (s : state) :
  (c ← occurs_get i;
   if c >? 0 then printf ("Character: " ++ dec i ++ " - " ++ dec c ++ nl)
   else mret tt) s =
  Ret tt {| trace := trace s
                     ++ (Printf <$> report_lines i
                                      (option_list (occurs s !! Z.to_nat i)));
            infile := infile s; img := img s; occurs := occurs s |}.
Proof.
  unfold mbind, M_bind, occurs_get.
  destruct (occurs s !! Z.to_nat i) as [v|];
    [change (option_list (Some v)) with [v]|change (option_list (@None Z)) with (@nil Z)];
    cbn [default from_option id report_lines].
  - destruct (v >? 0); [reflexivity|].
    destruct s. simpl. by rewrite app_nil_r.
  - destruct s. simpl. by rewrite app_nil_r.
Qed.

(** The loop of the summary, from digit [k] on: a line for each count above
    zero, in the order of the digits. *)
Lemma rounds_report (n k : nat) (s : state) :
  rounds n (Z.of_nat k)
    (fun i => c ← occurs_get i;
              if c >? 0 then printf ("Character: " ++ dec i ++ " - " ++ dec c ++ nl)
              else mret tt) s =
  Ret tt {| trace := trace s
                     ++ (Printf <$> report_lines (Z.of_nat k) (take n (drop k (occurs s))));
            infile := infile s; img := img s; occurs := occurs s |}.
Proof.
  revert k s. induction n as [|n IH]; intros k s.
  - destruct s. simpl. by rewrite app_nil_r.
  - cbn [rounds]. rewrite (bind_ret _ _ _ _ _ (report_round (Z.of_nat k) s)).
    replace (Z.of_nat k + 1) with (Z.of_nat (S k)) by lia.
    rewrite IH. cbn [trace infile img occurs]. rewrite Nat2Z.id.
    f_equal. f_equal. rewrite <- app_assoc, <- fmap_app. do 2 f_equal.
    destruct (occurs s !! k) as [v|] eqn:Hv.
    + rewrite (drop_S _ _ _ Hv). change (option_list (Some v)) with [v].
      cbn [take report_lines].
      replace (Z.of_nat k + 1) with (Z.of_nat (S k)) by lia.
      rewrite <- app_assoc. reflexivity.
    + apply lookup_ge_None_1 in Hv. rewrite !drop_ge by lia. by rewrite !take_nil.
Qed.

(** The summary loop with its header and its closing line. *)
Lemma report_summary (xsize ysize : Z) (s : state) :
  report xsize ysize s =
  Ret tt {| trace := trace s ++ (Printf <$>
              ([ nl; "Image Analysis" ++ nl; "---------------------------" ++ nl;
                 "Occurrences out of " ++ dec (int_mul xsize ysize) ++ ":" ++ nl ]%string
               ++ report_lines 0 (take 10 (occurs s)) ++ [nl]));
            infile := infile s; img := img s; occurs := occurs s |}.
Proof.
  unfold report.
  do 4 (erewrite bind_ret by reflexivity).
  erewrite bind_ret.
  2:{ unfold for_le. change (Z.to_nat (9 + 1 - 0)) with 10%nat. apply (rounds_report 10 0). }
  unfold printf, emit. cbn [trace infile img occurs]. rewrite drop_0.
  f_equal. f_equal. rewrite !fmap_app. rewrite <- !app_assoc. reflexivity.
Qed.

(** After a completed scan: the image goes to the encoder, then the summary
    of the counts is printed, and the exit status is 0. *)
Lemma finish_summary (xsize ysize : Z) (s : state) (im : gdImage) :
  img s = Some im ->
  finish xsize ysize s =
  Exit 0 {| trace := trace s ++ Printf ("Done" ++ nl) :: GdImagePng im
                             :: (Printf <$> summary xsize ysize (occurs s));
            infile := infile s; img := img s; occurs := occurs s |}.
Proof.
  destruct s as [tr i oim oc]. cbn [img trace infile occurs]. intros ->. unfold finish.
  erewrite bind_ret by reflexivity. erewrite bind_ret by reflexivity.
  erewrite bind_ret by apply report_summary.
  do 3 (erewrite bind_ret by reflexivity). unfold exit.
  cbn [trace infile img occurs]. f_equal. f_equal.
  unfold summary. rewrite !fmap_app, <- !app_assoc. reflexivity.
Qed.

(** X10: for sizes from 1 to 3000, a run with status 0 ends its output,
    after the encoder call, with the summary: the header with
    [xsize * ysize], then, in the order of the digits, one line for each
    digit that occurs among the first [(xsize + 1) * (ysize + 1)] bytes of
    the input, giving the number of its occurrences there, and the closing
    messages. *)
Theorem summary_lists_counts (cfg : config) (e : env) (s : state) :
  1 <= xsize cfg <= 3000 -> 1 <= ysize cfg <= 3000 ->
  run cfg e = Exit 0 s ->
  exists contents pre im,
    input e = Some contents /\
    trace s =
      pre ++ GdImagePng im
          :: (Printf <$>
                [ nl; "Image Analysis" ++ nl; "---------------------------" ++ nl;
                  "Occurrences out of " ++ dec (xsize cfg * ysize cfg) ++ ":" ++ nl ]%string
                ++ report_lines 0
                     (histogram
                        (take (Z.to_nat ((xsize cfg + 1) * (ysize cfg + 1))) contents))
                ++ [ nl; "Closing files..." ++ nl; "Flushing memory..." ++ nl;
                     "Done." ++ nl ]%string).
Proof.
  intros Hx Hy Er.
  pose proof (int_mul_exact _ _ Hx Hy) as Hm.
  pose proof (length_raster_positions (xsize cfg) (ysize cfg) ltac:(lia) ltac:(lia)) as Hps.
  destruct (run_cases cfg e)
    as [(texts & t & s0 & E0 & _)
       |(name & contents & Hn & Hi & Hf & [[Hlt E0]|(Hge & Ho & [(st & s' & E)|[s' E]])])].
  - by rewrite E0 in Er.
  - by rewrite E0 in Er.
  - destruct (run_scan_exit cfg e name contents st s') as (E0 & _); try done.
    by rewrite E0 in Er.
  - rewrite (run_ready cfg e name contents) in Er by done.
    rewrite (bind_ret _ _ _ _ _ E) in Er.
    apply scan_ret_inv in E as (ds & Hds & _ & Hl & ->); [|lia|lia].
    change (infile (ready cfg name contents)) with (stream cfg name contents) in Hds.
    apply stream_digits in Hds as [_ Hds]; [|nia].
    assert (take (length ds) contents = ds) as Htake
      by (rewrite Hds; apply take_app_length).
    set (s1 := plots main_colors (raster_positions (xsize cfg) (ysize cfg)) ds
                 (ready cfg name contents)) in *.
    assert (exists im, img s1 = Some im) as [im Him].
    { unfold s1. rewrite img_plots. simpl. eauto. }
    rewrite (finish_summary _ _ s1 im Him) in Er. injection Er as <-.
    exists contents, (trace s1 ++ [Printf ("Done" ++ nl)]), im.
    split; [done|]. cbn [trace]. rewrite <- app_assoc. cbn [app]. do 3 f_equal.
    unfold summary. rewrite Hm. do 2 f_equal.
    assert (occurs s1 = histogram ds) as ->.
    { apply occurs_plots_histogram; [lia|done|].
      change (2 ^ 64) with 18446744073709551616.
      assert ((xsize cfg + 1) * (ysize cfg + 1) <= 3001 * 3001)
        by (apply Z.mul_le_mono_nonneg; lia).
      lia. }
    rewrite take_ge by (unfold histogram; rewrite length_fmap, length_seq; lia).
    replace (Z.to_nat _) with (length ds) by lia. by rewrite Htake.
Qed.

Lemma summary_lists_counts_witness :
  exists s pre im,
    run (Config (Some "in"%string) "out.png" 1 1)
        (Env (Some (bytes_of "30339")) true true) = Exit 0 s /\
    trace s =
      pre ++ GdImagePng im
          :: (Printf <$>
                [ nl; "Image Analysis" ++ nl; "---------------------------" ++ nl;
                  "Occurrences out of 1:" ++ nl; "Character: 0 - 1" ++ nl;
                  "Character: 3 - 3" ++ nl; nl; "Closing files..." ++ nl;
                  "Flushing memory..." ++ nl; "Done." ++ nl ]%string).
Proof.
  assert (exists s, run (Config (Some "in"%string) "out.png" 1 1)
                        (Env (Some (bytes_of "30339")) true true) = Exit 0 s) as [s Er]
    by (eexists; vm_compute; reflexivity).
  destruct (summary_lists_counts (Config (Some "in"%string) "out.png" 1 1)
              (Env (Some (bytes_of "30339")) true true) s)
    as (contents & pre & im & Hi & Ht); [simpl; lia|simpl; lia|exact Er|].
  simpl in Hi. injection Hi as <-.
  exists s, pre, im. split; [exact Er|exact Ht].
Defined.

(** * The pixels of the encoded image *)

Lemma color_of_main_range (b : byte) : 0 <= color_of main_colors b < 10.
Proof.
  unfold color_of. destruct (color_map main_colors !! digit_of b) as [v|] eqn:E;
    simpl; [|lia].
  apply list_elem_of_lookup_2 in E. unfold color_map, main_colors in E. simpl in E.
  repeat (apply elem_of_cons in E as [->|E]; [lia|]). by apply elem_of_nil in E.
Qed.

Lemma gd_set_pixel_valid (im : gdImage) (x y color : Z) :
  0 <= color < 10 ->
  Forall (Forall (fun v => 0 <= v < 10)) (pixels im) ->
  Forall (Forall (fun v => 0 <= v < 10)) (pixels (gd_set_pixel im x y color)).
Proof.
  intros Hc Hp. unfold gd_set_pixel. destruct (gd_bounds_safe im x y); [|done].
  simpl. apply Forall_alter; [done|]. intros row _ Hrow.
  apply Forall_insert; [done|]. rewrite Z.mod_small by lia. done.
Qed.

Lemma paint_valid (ps : list (Z * Z)) (ds : list byte) (im : gdImage) :
  Forall (Forall (fun v => 0 <= v < 10)) (pixels im) ->
  Forall (Forall (fun v => 0 <= v < 10)) (pixels (paint main_colors ps ds im)).
Proof.
  revert ds im. induction ps as [|[x y] ps IH]; intros [|b ds] im Hp; simpl; try done.
  apply IH. apply gd_set_pixel_valid; [apply color_of_main_range|done].
Qed.

(** X11: every image a run hands to the encoder has the ten colours of
    [main] as its palette, in the order of the digits, and each of its
    pixels is one of the palette indices 0 .. 9; no pixel refers to a colour
    that was not allocated. *)
Theorem encoded_pixels_valid (cfg : config) (e : env) (st : Z) (s : state) :
  run cfg e = Exit st s ->
  Forall (fun im =>
            palette im = main_palette /\
            Forall (Forall (fun v => 0 <= v < Z.of_nat (length (palette im))))
                   (pixels im))
         (encoded (trace s)).
Proof.
  intros Er.
  destruct (run_cases cfg e)
    as [(texts & t & s0 & E0 & Et & _)
       |(name & contents & Hn & Hi & Hf & [[Hlt E0]|(Hge & Ho & [(st' & s' & E)|[s' E]])])].
  - rewrite E0 in Er. injection Er as <- <-. by rewrite Et, encoded_printf.
  - rewrite E0 in Er. injection Er as <- <-. constructor.
  - destruct (run_scan_exit cfg e name contents st' s') as (E0 & _ & Henc & _); try done.
    rewrite E0 in Er. injection Er as <- <-. by rewrite Henc.
  - destruct (run_scan_ret cfg e name contents s') as (im & texts & Him & E0 & Henc);
      try done.
    rewrite E0 in Er. injection Er as <- <-.
    match goal with
    | |- Forall ?P _ => cut (Forall P [im]); [intros HF; rewrite <- Henc in HF; exact HF|]
    end.
    rewrite scan_each in E. apply each_ret_inv in E as (ds & _ & _ & _ & ->).
    rewrite img_plots in Him. injection Him as <-.
    destruct (paint_frame main_colors (raster_positions (xsize cfg) (ysize cfg)) ds
                (blank (xsize cfg) (ysize cfg)))
      as (_ & _ & _ & Hpal); [apply (well_formed_create (xsize cfg) (ysize cfg))|].
    constructor; [|done]. rewrite Hpal. split; [done|].
    change (Z.of_nat (length (palette (blank (xsize cfg) (ysize cfg))))) with 10.
    apply paint_valid. simpl. apply Forall_replicate, Forall_replicate. lia.
Qed.

Lemma encoded_pixels_valid_witness :
  exists s,
    run (Config (Some "in"%string) "out.png" 2 1)
        (Env (Some (bytes_of "905132")) true true) = Exit 0 s /\
    Forall (fun im =>
              palette im = main_palette /\
              Forall (Forall (fun v => 0 <= v < Z.of_nat (length (palette im))))
                     (pixels im))
           (encoded (trace s)).
Proof.
  assert (exists s, run (Config (Some "in"%string) "out.png" 2 1)
                        (Env (Some (bytes_of "905132")) true true) = Exit 0 s) as [s Er]
    by (eexists; vm_compute; reflexivity).
  exists s. split; [exact Er|]. exact (encoded_pixels_valid _ _ _ _ Er).
Defined.
